(** * The conversational tool-calling loop of the task manager

    A shallow embedding of
    - [repositories/task_manager_repo.py] (the ten remote tools and
      [get_function_by_name]),
    - [repositories/gemini_repo.py] ([llm_generate]),
    - [services/chat_bot_service.py] (the three graph nodes, the two routing
      functions and [get_graph]),
    - [routing/chat_bot_router.py] ([chat]),
    followed by the properties of the orchestration loop.

    Everything outside the repository (the language model, the remote CRUD
    API, argument validation of the tool framework, Python's [str]) is an
    oracle collected in the class [Externals]; the program is a function of
    these oracles and of a log of the observable calls it makes. *)

From stdpp Require Import base option list gmap strings fin_maps.
From Stdlib Require Import ZArith Lia.

Open Scope string_scope.
Open Scope list_scope.
Open Scope Z_scope.

(** ** Python values and exceptions *)

Module Py.

#[local] Set Warnings "-register-all".

(** The values that travel through tool arguments and JSON documents. *)
Inductive value : Type :=
| VNone
| VBool (b : bool)
| VInt (z : Z)
| VStr (s : string)
| VList (l : list value)
| VDict (d : list (string * value)).

(** Python truthiness, as used by [completed if completed else False]. *)
Definition truthy (v : value) : bool :=
  match v with
  | VNone => false
  | VBool b => b
  | VInt z => negb (z =? 0)
  | VStr s => negb (String.eqb s EmptyString)
  | VList l => match l with [] => false | _ => true end
  | VDict d => match d with [] => false | _ => true end
  end.

(** The exception classes the program names, and [OtherException] for every
    class it does not.  An exception is tagged with the most specific of
    these classes; all of them derive from [Exception]. *)
Inductive exn_class : Type :=
| ChatGoogleGenerativeAIError
| LangChainException
| HTTPException (status_code : Z)
| NotImplementedError
| HTTPError
| KeyError
| TypeError
| IndexError
| AttributeError
| UnboundLocalError
| OtherException (name : string).

Inductive exn : Type := Exn (cls : exn_class) (detail : string).

Definition exn_cls (e : exn) : exn_class := let 'Exn c _ := e in c.

#[global] Instance exn_class_eq_dec : EqDecision exn_class.
Proof. solve_decision. Defined.

(** [isinstance e c], for the classes of an [except c] clause. *)
Definition isinstance (e : exn) (c : exn_class) : bool :=
  bool_decide (exn_cls e = c).

(** The outcome of evaluating an expression: a value or a raised exception. *)
Inductive result (A : Type) : Type :=
| Ok (a : A)
| Raise (e : exn).
Arguments Ok {A} a.
Arguments Raise {A} e.

End Py.
Export Py.

(** ** Messages *)

(** A tool call as the model emits it: [{"name": .., "args": .., "id": ..}]. *)
Record ToolCall : Type := mkToolCall {
  tc_name : string;
  tc_args : gmap string value;
  tc_id : option string;
}.

Inductive Message : Type :=
| SystemMessage (content : string)
| HumanMessage (content : string)
| AIMessage (content : string) (tool_calls : list ToolCall)
| ToolMessage (content : string) (tool_call_id : option string) (name : string).

Definition content (m : Message) : string :=
  match m with
  | SystemMessage c | HumanMessage c | AIMessage c _ | ToolMessage c _ _ => c
  end.

(** [m.tool_calls]; only assistant messages have the attribute. *)
Definition tool_calls (m : Message) : option (list ToolCall) :=
  match m with
  | AIMessage _ tcs => Some tcs
  | _ => None
  end.

(** [ToolMessage(content=.., tool_call_id=.., name=..)]: the class declares
    [tool_call_id: str], and its validation refuses [None] with a
    [ValidationError], a class the program does not name. *)
Definition missing_tool_call_id : exn :=
  Exn (OtherException "ValidationError") "tool_call_id".

Definition ToolMessage_init (content : string) (tool_call_id : option string)
    (name : string) : result Message :=
  match tool_call_id with
  | Some _ => Ok (ToolMessage content tool_call_id name)
  | None => Raise missing_tool_call_id
  end.

(** ** HTTP requests to the task manager *)

Inductive http_method : Type := GET | POST | PATCH | DELETE.

Record Request : Type := mkRequest {
  req_method : http_method;
  req_url : string;
  req_json : option (gmap string value);
  req_params : option (gmap string value);
  req_headers : gmap string string;
}.

(** A response object: what [raise_for_status()] raises, if anything, and
    what [json()] returns or raises. *)
Record Response : Type := mkResponse {
  raise_for_status : option exn;
  json : result value;
}.

(** [await client.post(..)] and the like: a response, or an exception raised
    before any response exists. *)
Inductive http_outcome : Type :=
| Answered (r : Response)
| Failed (e : exn).

(** ** The graph's nodes and the log of observable calls *)

Inductive node : Type := START | llm | call_api | limit_llm_request | END.

#[global] Instance node_eq_dec : EqDecision node.
Proof. solve_decision. Defined.

Inductive event : Type :=
| EvNode (n : node)
    (* the graph runs node [n] *)
| EvModel (with_tools : bool) (messages : list Message)
    (* [model_with_tools.ainvoke(messages)] or [model.ainvoke(messages)] *)
| EvTool (name : string) (tool_input : gmap string value)
    (* [function_to_call.ainvoke(tool_input)] *)
| EvRequest (r : Request).
    (* the HTTP client is asked to send [r] to the task manager *)

Abbreviation log := (list event).

(** ** What the program does not define *)

Class Externals : Type := {
  (** the two chat models of [GeminiRepository]: [model_with_tools] for
      [true], [model] for [false]; the answer may depend on everything that
      happened before *)
  model_ainvoke : log → bool → list Message → result Message;
  (** the task manager behind [TASK_MANAGER_BASE_URL] *)
  remote : log → Request → http_outcome;
  (** [config.TASK_MANAGER_BASE_URL] and
      [config.LIMIT_GEMINI_REQUEST_PER_MESSAGE] *)
  TASK_MANAGER_BASE_URL : string;
  LIMIT_GEMINI_REQUEST_PER_MESSAGE : Z;
  (** the tool framework's validation of a tool input against the tool's
      argument schema, giving the keyword arguments of the call *)
  validate : string → gmap string value → result (gmap string value);
  (** [TaskCreate(title=.., description=.., deadline=.., collection_id=..)]
      followed by [model_dump(mode="json", exclude_unset=True)] *)
  TaskCreate_model_dump : value → value → value → value → result (gmap string value);
  (** [str(v)] for a value that is not a string, and [str(e)] *)
  render : value → string;
  str_exn : exn → string;
}.

(** [str(v)], also what an f-string puts in place of [{v}]. *)
Definition py_str `{Externals} (v : value) : string :=
  match v with
  | VStr s => s
  | _ => render v
  end.

(** ** The monad of the program: exceptions over a growing log *)

Definition M (A : Type) : Type := log → result A * log.

Definition ret {A} (a : A) : M A := λ w, (Ok a, w).

Definition raise {A} (e : exn) : M A := λ w, (Raise e, w).

Definition bind {A B} (m : M A) (k : A → M B) : M B :=
  λ w, match m w with
       | (Ok a, w') => k a w'
       | (Raise e, w') => (Raise e, w')
       end.

(** [try: m  except Exception as e: handler e] *)
Definition try_except {A} (m : M A) (handler : exn → M A) : M A :=
  λ w, match m w with
       | (Ok a, w') => (Ok a, w')
       | (Raise e, w') => handler e w'
       end.

Definition lift {A} (r : result A) : M A := λ w, (r, w).

Definition emit (ev : event) : M unit := λ w, (Ok tt, w ++ [ev]).

Definition get_log : M log := λ w, (Ok w, w).

Notation "'let*' x ':=' c 'in' k" := (bind c (λ x, k))
  (at level 10, x pattern, c at level 100, k at level 200).
Notation "c ';;' k" := (bind c (λ _, k))
  (at level 100, k at level 200, right associativity).

(** [for x in l: acc.append(body x)], left to right. *)
Fixpoint for_each {A B} (body : A → M B) (l : list A) : M (list B) :=
  match l with
  | [] => ret []
  | x :: l' =>
      let* y := body x in
      let* ys := for_each body l' in
      ret (y :: ys)
  end.

(** ** Tools: a coroutine behind a name and an argument schema *)

(** What [@tool] makes of an [async def]. *)
Record StructuredTool : Type := mkTool {
  tool_name : string;
  coroutine : gmap string value → M value;
}.

(** Binding keyword arguments to the parameters of a [def]: a parameter
    without default must be given, a parameter with default may be, and no
    other keyword is accepted. *)
Definition required (kw : gmap string value) (param : string) : result value :=
  match kw !! param with
  | Some v => Ok v
  | None => Raise (Exn TypeError ("missing required argument " +:+ param))
  end.

Definition optional (kw : gmap string value) (param : string) (dflt : value)
  : value :=
  default dflt (kw !! param).

Definition check_keywords (kw : gmap string value) (params : list string)
  : result unit :=
  if bool_decide (dom kw ⊆ list_to_set (C := gset string) params)
  then Ok tt
  else Raise (Exn TypeError "unexpected keyword argument").

Definition tool (name : string) (params : list string)
    (call : gmap string value → M value) : StructuredTool :=
  {| tool_name := name;
     coroutine := λ kw, lift (check_keywords kw params);; call kw |}.

(** [await t.ainvoke(tool_input)]: the input is validated against the
    schema, then the coroutine is called with the resulting keywords. *)
Definition ainvoke `{Externals} (t : StructuredTool)
    (tool_input : gmap string value) : M value :=
  emit (EvTool (tool_name t) tool_input);;
  let* kw := lift (validate (tool_name t) tool_input) in
  coroutine t kw.

(** ** repositories/task_manager_repo.py *)

Module TaskManagerRepository.
Section repo.
Context `{Externals}.

(** [{"Authorization": f"Bearer {token}"}] *)
Definition auth_headers (token : value) : gmap string string :=
  {[ "Authorization" := "Bearer " +:+ py_str token ]}.

(** The block every tool ends with:
<<
    async with AsyncClient() as client:
        try:
            response = await client.<method>(url, ...)
            response.raise_for_status()
        except HTTPError as e:
            logger.error("...", e, response.json())
            return str(e)
    return response.json()
>>
    When the client call itself raises an [HTTPError], [response] is not
    bound and the handler's [response.json()] raises; otherwise the handler
    evaluates [response.json()] for the log line before it returns. *)
Definition send (req : Request) : M value :=
  let* w := get_log in
  emit (EvRequest req);;
  match remote w req with
  | Failed e =>
      if isinstance e HTTPError
      then raise (Exn UnboundLocalError "response")
      else raise e
  | Answered response =>
      match raise_for_status response with
      | Some e =>
          if isinstance e HTTPError
          then lift (json response);; ret (VStr (str_exn e))
          else raise e
      | None => lift (json response)
      end
  end.

Definition create_task (title description token deadline collection_id : value)
  : M value :=
  let headers := auth_headers token in
  let* task := lift (TaskCreate_model_dump title description deadline collection_id) in
  send (mkRequest POST (TASK_MANAGER_BASE_URL +:+ "tasks/create")
          (Some task) None headers).

Definition read_task (task_id token : value) : M value :=
  let headers := auth_headers token in
  send (mkRequest GET (TASK_MANAGER_BASE_URL +:+ "tasks/" +:+ py_str task_id)
          None None headers).

Definition task_list (offset limit token deadline completed : value) : M value :=
  let headers := auth_headers token in
  send (mkRequest GET (TASK_MANAGER_BASE_URL +:+ "tasks/") None
          (Some {[ "offset" := offset;
                   "limit" := limit;
                   "deadline" := deadline;
                   "completed" := if truthy completed then completed else VBool false ]})
          headers).

(** [for field in updated_fields]: lists, and also strings (their
    characters) and dicts (their keys), can be iterated. *)
Definition iterate (v : value) : result (list value) :=
  match v with
  | VList l => Ok l
  | VStr s => Ok ((λ c, VStr (String c EmptyString)) <$> String.list_ascii_of_string s)
  | VDict d => Ok ((λ kv, VStr kv.1) <$> d)
  | _ => Raise (Exn TypeError "object is not iterable")
  end.

(** [{field: data[field] for field in fields}], on top of [acc]: the first
    failing [data[field]] ends the comprehension. *)
Fixpoint dict_comprehension (data : gmap string value) (fields : list value)
    (acc : gmap string value) : result (gmap string value) :=
  match fields with
  | [] => Ok acc
  | field :: fields' =>
      match field with
      | VStr k =>
          match data !! k with
          | Some v => dict_comprehension data fields' (<[k := v]> acc)
          | None => Raise (Exn KeyError k)
          end
      | VList _ | VDict _ => Raise (Exn TypeError "unhashable type")
      | _ => Raise (Exn KeyError (py_str field))
      end
  end.

Definition select_fields (data : gmap string value) (updated_fields : value)
  : result (gmap string value) :=
  match iterate updated_fields with
  | Ok fields => dict_comprehension data fields ∅
  | Raise e => Raise e
  end.

Definition update_task
    (task_id updated_fields token title description completed deadline
       collection_id : value) : M value :=
  let data : gmap string value :=
    {[ "title" := title;
       "description" := description;
       "completed" := completed;
       "deadline" := deadline;
       "collection_id" := collection_id ]} in
  let* data_to_update := lift (select_fields data updated_fields) in
  let headers := auth_headers token in
  send (mkRequest PATCH
          (TASK_MANAGER_BASE_URL +:+ "tasks/" +:+ py_str task_id +:+ "/update")
          (Some data_to_update) None headers).

Definition delete_task (task_id token : value) : M value :=
  let headers := auth_headers token in
  send (mkRequest DELETE
          (TASK_MANAGER_BASE_URL +:+ "tasks/" +:+ py_str task_id +:+ "/delete")
          None None headers).

Definition create_collection (name token tasks : value) : M value :=
  let headers := auth_headers token in
  let body : gmap string value := {[ "name" := name; "tasks" := tasks ]} in
  send (mkRequest POST (TASK_MANAGER_BASE_URL +:+ "collections/create")
          (Some body) None headers).

Definition read_collection (collection_id token : value) : M value :=
  let headers := auth_headers token in
  send (mkRequest GET
          (TASK_MANAGER_BASE_URL +:+ "collections/" +:+ py_str collection_id)
          None None headers).

Definition collection_list (offset limit token : value) : M value :=
  let headers := auth_headers token in
  send (mkRequest GET (TASK_MANAGER_BASE_URL +:+ "collections/") None
          (Some {[ "offset" := offset; "limit" := limit ]}) headers).

Definition update_collection (collection_id updated_fields token name : value)
  : M value :=
  let data : gmap string value := {[ "name" := name ]} in
  let* data_to_update := lift (select_fields data updated_fields) in
  let headers := auth_headers token in
  send (mkRequest PATCH
          (TASK_MANAGER_BASE_URL +:+ "collections/" +:+ py_str collection_id
             +:+ "/update")
          (Some data_to_update) None headers).

Definition delete_collection (collection_id token : value) : M value :=
  let headers := auth_headers token in
  send (mkRequest DELETE
          (TASK_MANAGER_BASE_URL +:+ "collections/" +:+ py_str collection_id
             +:+ "/delete")
          None None headers).

(** *** The decorated objects

    In the source the name [update_task] denotes the tool made from the
    [def]; here the [def] keeps the name and the tool is [update_task_tool]. *)

Definition create_task_tool : StructuredTool :=
  tool "create_task" ["title"; "description"; "token"; "deadline"; "collection_id"]
    (λ kw,
      let* title := lift (required kw "title") in
      let* description := lift (required kw "description") in
      let* token := lift (required kw "token") in
      create_task title description token
        (optional kw "deadline" VNone) (optional kw "collection_id" VNone)).

Definition read_task_tool : StructuredTool :=
  tool "read_task" ["task_id"; "token"]
    (λ kw,
      let* task_id := lift (required kw "task_id") in
      let* token := lift (required kw "token") in
      read_task task_id token).

Definition task_list_tool : StructuredTool :=
  tool "task_list" ["offset"; "limit"; "token"; "deadline"; "completed"]
    (λ kw,
      let* offset := lift (required kw "offset") in
      let* limit := lift (required kw "limit") in
      let* token := lift (required kw "token") in
      task_list offset limit token
        (optional kw "deadline" VNone) (optional kw "completed" (VBool false))).

Definition update_task_tool : StructuredTool :=
  tool "update_task"
    ["task_id"; "updated_fields"; "token"; "title"; "description"; "completed";
     "deadline"; "collection_id"]
    (λ kw,
      let* task_id := lift (required kw "task_id") in
      let* updated_fields := lift (required kw "updated_fields") in
      let* token := lift (required kw "token") in
      update_task task_id updated_fields token
        (optional kw "title" VNone) (optional kw "description" VNone)
        (optional kw "completed" (VBool false)) (optional kw "deadline" VNone)
        (optional kw "collection_id" VNone)).

Definition delete_task_tool : StructuredTool :=
  tool "delete_task" ["task_id"; "token"]
    (λ kw,
      let* task_id := lift (required kw "task_id") in
      let* token := lift (required kw "token") in
      delete_task task_id token).

Definition create_collection_tool : StructuredTool :=
  tool "create_collection" ["name"; "token"; "tasks"]
    (λ kw,
      let* name := lift (required kw "name") in
      let* token := lift (required kw "token") in
      create_collection name token (optional kw "tasks" VNone)).

Definition read_collection_tool : StructuredTool :=
  tool "read_collection" ["collection_id"; "token"]
    (λ kw,
      let* collection_id := lift (required kw "collection_id") in
      let* token := lift (required kw "token") in
      read_collection collection_id token).

Definition collection_list_tool : StructuredTool :=
  tool "collection_list" ["offset"; "limit"; "token"]
    (λ kw,
      let* offset := lift (required kw "offset") in
      let* limit := lift (required kw "limit") in
      let* token := lift (required kw "token") in
      collection_list offset limit token).

Definition update_collection_tool : StructuredTool :=
  tool "update_collection" ["collection_id"; "updated_fields"; "token"; "name"]
    (λ kw,
      let* collection_id := lift (required kw "collection_id") in
      let* updated_fields := lift (required kw "updated_fields") in
      let* token := lift (required kw "token") in
      update_collection collection_id updated_fields token
        (optional kw "name" VNone)).

Definition delete_collection_tool : StructuredTool :=
  tool "delete_collection" ["collection_id"; "token"]
    (λ kw,
      let* collection_id := lift (required kw "collection_id") in
      let* token := lift (required kw "token") in
      delete_collection collection_id token).

(** The mapping inside [get_function_by_name], in the order it is written. *)
Definition funcs : list (string * StructuredTool) :=
  [ ("create_task", create_task_tool);
    ("read_task", read_task_tool);
    ("task_list", task_list_tool);
    ("update_task", update_task_tool);
    ("delete_task", delete_task_tool);
    ("create_collection", create_collection_tool);
    ("read_collection", read_collection_tool);
    ("collection_list", collection_list_tool);
    ("update_collection", update_collection_tool);
    ("delete_collection", delete_collection_tool) ].

Definition get_function_by_name (name : string) : result StructuredTool :=
  let func := (list_to_map funcs : gmap string StructuredTool) !! name in
  match func with
  | None =>
      Raise (Exn NotImplementedError
               ("Function " +:+ name +:+ " is not implemented"))
  | Some func => Ok func
  end.

End repo.
End TaskManagerRepository.

(** ** repositories/gemini_repo.py *)

Module GeminiRepository.
Import TaskManagerRepository.
Section repo.
Context `{Externals}.

(** The tools bound to [model_with_tools]. *)
Definition tools : list StructuredTool :=
  [ create_task_tool; read_task_tool; task_list_tool; update_task_tool;
    delete_task_tool; create_collection_tool; read_collection_tool;
    collection_list_tool; update_collection_tool; delete_collection_tool ].

(** The default of the parameter [with_tools: bool = True]. *)
Definition with_tools_default : bool := true.

(** [None] stands for the [return None] of the two handlers; an exception of
    any other class leaves the function. *)
Definition llm_generate (messages : list Message) (with_tools : bool)
  : M (option Message) :=
  let* w := get_log in
  emit (EvModel with_tools messages);;
  match model_ainvoke w with_tools messages with
  | Ok response => ret (Some response)
  | Raise e =>
      if isinstance e ChatGoogleGenerativeAIError then ret None
      else if isinstance e LangChainException then ret None
      else raise e
  end.

End repo.
End GeminiRepository.

(** ** services/chat_bot_service.py *)

Module ChatBotService.
Import TaskManagerRepository GeminiRepository.

Record ChatBotState : Type := mkState {
  messages : list Message;
  iterations : Z;
  response : option string;
  token : string;
}.

(** The dict a node returns: a ["messages"] entry, and an ["iterations"]
    entry or none. *)
Record Update : Type := mkUpdate {
  upd_messages : list Message;
  upd_iterations : option Z;
}.

(** The reducer of the [messages] key.  The messages the nodes return are
    new ones, which the reducer puts at the end. *)
Definition add_messages (left right : list Message) : list Message :=
  left ++ right.

(** How the graph folds a node's dict into the state: [messages] through its
    reducer, [iterations] overwritten when present, the rest kept. *)
Definition apply_update (state : ChatBotState) (u : Update) : ChatBotState :=
  {| messages := add_messages (messages state) (upd_messages u);
     iterations := default (iterations state) (upd_iterations u);
     response := response state;
     token := token state |}.

(** [messages[-1]] *)
Definition last_item (messages : list Message) : result Message :=
  match last messages with
  | Some m => Ok m
  | None => Raise (Exn IndexError "list index out of range")
  end.

(** [last_message.tool_calls] *)
Definition get_tool_calls (m : Message) : result (list ToolCall) :=
  match tool_calls m with
  | Some tcs => Ok tcs
  | None => Raise (Exn AttributeError "tool_calls")
  end.

(** The tool calls of the last message are dicts shared with the state:
    writing into their ["args"] changes the message held by the state. *)
Definition with_tool_calls (m : Message) (tcs : list ToolCall) : Message :=
  match m with
  | AIMessage c _ => AIMessage c tcs
  | _ => m
  end.

Definition with_last_tool_calls (state : ChatBotState) (tcs : list ToolCall)
  : ChatBotState :=
  {| messages :=
       match last (messages state) with
       | Some m => removelast (messages state) ++ [with_tool_calls m tcs]
       | None => messages state
       end;
     iterations := iterations state;
     response := response state;
     token := token state |}.

Definition limit_prompt : Message :=
  HumanMessage "The chatbot has reached its maximum number of LLM API calls for this single user message. Please summarize the results obtained from previous API calls and inform the user that processing has stopped due to this limitation. Let them know they can continue by sending a new message with additional instructions, rather than this being a permanent limit on their account. Use a clear and friendly tone to explain this technical limitation.
            ".

Section service.
Context `{Externals}.

(** Every node returns the state as its own writes left it, and its dict. *)

Definition call_llm_with_tools (state : ChatBotState)
  : M (ChatBotState * Update) :=
  let messages := messages state in
  let* response := llm_generate messages with_tools_default in
  match response with
  | None => raise (Exn (HTTPException 500) "Error while calling LLM")
  | Some response =>
      let iterations := iterations state - 1 in
      ret (state, {| upd_messages := [response];
                     upd_iterations := Some iterations |})
  end.

(** The body of [for tool_call in last_message.tool_calls]: the tool call
    with its ["args"] written to, and the message appended for it.  The
    message is made after the [try] statement, so a [ToolMessage] that does
    not validate ends the loop. *)
Definition call_tool (state_token : string) (tool_call : ToolCall)
  : M (ToolCall * Message) :=
  let tool_name := tc_name tool_call in
  let tool_args := tc_args tool_call in
  let* function_to_call := lift (get_function_by_name tool_name) in
  let tool_args := <["token" := VStr state_token]> tool_args in
  let* result :=
    try_except (ainvoke function_to_call tool_args)
      (λ e, ret (VStr (str_exn e))) in
  let* message :=
    lift (ToolMessage_init ("Function result is: " +:+ py_str result)
            (tc_id tool_call) tool_name) in
  ret (mkToolCall tool_name tool_args (tc_id tool_call), message).

Definition call_task_manager_api (state : ChatBotState)
  : M (ChatBotState * Update) :=
  let messages := messages state in
  let* last_message := lift (last_item messages) in
  let* calls := lift (get_tool_calls last_message) in
  let* called := for_each (call_tool (token state)) calls in
  let tool_messages := called.*2 in
  ret (with_last_tool_calls state called.*1,
       {| upd_messages := tool_messages; upd_iterations := None |}).

(** [messages.append(limit_prompt)] extends the list the model is given; the
    reducer keeps one copy of the prompt, the one of the returned dict. *)
Definition limit_llm_request_exceeded (state : ChatBotState)
  : M (ChatBotState * Update) :=
  let messages := messages state in
  let messages := messages ++ [limit_prompt] in
  let* response := llm_generate messages with_tools_default in
  match response with
  | None => raise (Exn (HTTPException 500) "Error while calling LLM")
  | Some response =>
      ret (state, {| upd_messages := [limit_prompt; response];
                     upd_iterations := None |})
  end.

End service.

Definition resolve_model_response (state : ChatBotState) : result string :=
  match last_item (messages state) with
  | Raise e => Raise e
  | Ok last_message =>
      if negb (match tool_calls last_message with
               | Some tcs => bool_decide (0 < length tcs)%nat
               | None => false
               end)
      then Ok "end"
      else Ok "call_api"
  end.

Definition check_gemini_limit_request (state : ChatBotState) : result string :=
  if bool_decide (iterations state ≤ 0)
  then Ok "limit_llm_request"
  else Ok "llm".

(** *** The graph *)

Inductive edge : Type :=
| Edge (target : node)
| ConditionalEdges (path : ChatBotState → result string)
    (path_map : list (string * node)).

Record StateGraph : Type := mkGraph {
  nodes : node → option (ChatBotState → M (ChatBotState * Update));
  edges : node → option edge;
}.

Section graph.
Context `{Externals}.

Definition get_graph : StateGraph :=
  {| nodes := λ n,
       match n with
       | llm => Some call_llm_with_tools
       | call_api => Some call_task_manager_api
       | limit_llm_request => Some limit_llm_request_exceeded
       | START | END => None
       end;
     edges := λ n,
       match n with
       | START => Some (Edge llm)
       | llm =>
           Some (ConditionalEdges resolve_model_response
                   [("call_api", call_api); ("end", END)])
       | call_api =>
           Some (ConditionalEdges check_gemini_limit_request
                   [("llm", llm); ("limit_llm_request", limit_llm_request)])
       | limit_llm_request => Some (Edge END)
       | END => None
       end |}.

(** One step of the compiled graph: run the node, fold its dict into the
    state, follow the outgoing edge. *)
Definition follow (e : option edge) (state : ChatBotState) : result node :=
  match e with
  | Some (Edge target) => Ok target
  | Some (ConditionalEdges path path_map) =>
      match path state with
      | Raise e => Raise e
      | Ok key =>
          match (list_to_map path_map : gmap string node) !! key with
          | Some target => Ok target
          | None => Raise (Exn KeyError key)
          end
      end
  | None => Ok END
  end.

Definition step (g : StateGraph) (n : node) (state : ChatBotState)
  : M (node * ChatBotState) :=
  let* state' :=
    match nodes g n with
    | Some action =>
        emit (EvNode n);;
        let* out := action state in
        ret (apply_update out.1 out.2)
    | None => ret state
    end in
  let* n' := lift (follow (edges g n) state') in
  ret (n', state').

(** Running from node [n] for at most [fuel] steps; [None] when the steps
    run out before [END].  The graph library has a step bound of its own
    ([recursion_limit]), which the program does not set; it can only end a
    run earlier, with an error, and is left out. *)
Fixpoint run (g : StateGraph) (fuel : nat) (n : node) (state : ChatBotState)
    (w : log) : option (result ChatBotState * log) :=
  match n with
  | END => Some (Ok state, w)
  | _ =>
      match fuel with
      | O => None
      | S fuel' =>
          match step g n state w with
          | (Ok (n', state'), w') => run g fuel' n' state' w'
          | (Raise e, w') => Some (Raise e, w')
          end
      end
  end.

(** Steps that suffice for a run with the given budget: the entry edge, two
    steps for every model turn with its tools, and the forced last turn. *)
Definition steps_for (budget : Z) : nat :=
  (2 * Z.to_nat (Z.max 1 budget) + 2)%nat.

(** [await graph.ainvoke(state)] *)
Definition graph_ainvoke (state : ChatBotState) (w : log)
  : option (result ChatBotState * log) :=
  run get_graph (steps_for (iterations state)) START state w.

End graph.
End ChatBotService.

(** ** routing/chat_bot_router.py *)

Module ChatBotRouter.
Import ChatBotService.

(** [chat]; [setup_prompt] is what [get_setup_prompt()] returned, a fixed
    text with the current date and time filled in. *)
Definition chat `{Externals} (setup_prompt : string) (message : string)
    (current_user_token : string) (w : log) : option (result string * log) :=
  let system_prompt := SystemMessage setup_prompt in
  let user_message := HumanMessage message in
  match graph_ainvoke
          {| messages := [system_prompt; user_message];
             iterations := LIMIT_GEMINI_REQUEST_PER_MESSAGE;
             response := None;
             token := current_user_token |} w with
  | None => None
  | Some (Raise e, w') => Some (Raise e, w')
  | Some (Ok result, w') =>
      Some (match last_item (messages result) with
            | Ok m => Ok (content m)
            | Raise e => Raise e
            end, w')
  end.

End ChatBotRouter.

(** ** Observations on a log *)

Definition is_model_call (ev : event) : bool :=
  match ev with EvModel _ _ => true | _ => false end.

Definition is_node (n : node) (ev : event) : bool :=
  match ev with EvNode n' => bool_decide (n' = n) | _ => false end.

Definition is_tool_call (ev : event) : bool :=
  match ev with EvTool _ _ => true | _ => false end.

Definition is_request (ev : event) : bool :=
  match ev with EvRequest _ => true | _ => false end.

(** How many events of a log satisfy [p]. *)
Fixpoint count (p : event → bool) (w : log) : nat :=
  match w with
  | [] => 0
  | ev :: w' => (if p ev then 1 else 0) + count p w'
  end%nat.

Definition model_calls (w : log) : nat := count is_model_call w.
Definition node_runs (n : node) (w : log) : nat := count (is_node n) w.

(** ** Test doubles

    A scripted model (its [k]-th invocation gives the [k]-th entry of the
    script, and a plain answer once the script is used up), a task manager
    given as a function of the request, and the simplest choices for the
    rest. *)

Module Stub.

Definition answer (text : string) : result Message := Ok (AIMessage text []).

Definition asks (text : string) (calls : list ToolCall) : result Message :=
  Ok (AIMessage text calls).

Definition success (v : value) : http_outcome :=
  Answered {| raise_for_status := None; json := Ok v |}.

Definition status_error (text : string) : http_outcome :=
  Answered {| raise_for_status := Some (Exn HTTPError text);
              json := Ok (VDict [("detail", VStr text)]) |}.

Definition externals (limit : Z) (script : list (result Message))
    (task_manager : Request → http_outcome) : Externals :=
  {| model_ainvoke := λ w _ _,
       default (answer "done") (script !! model_calls w);
     remote := λ _ req, task_manager req;
     TASK_MANAGER_BASE_URL := "http://tm/";
     LIMIT_GEMINI_REQUEST_PER_MESSAGE := limit;
     validate := λ _ tool_input, Ok tool_input;
     TaskCreate_model_dump := λ title description deadline collection_id,
       Ok {[ "title" := title; "description" := description;
             "deadline" := deadline; "collection_id" := collection_id ]};
     render := λ _, "<value>";
     str_exn := λ e, let 'Exn _ detail := e in detail |}.

Definition call (name : string) (args : list (string * value)) (id : string)
  : ToolCall :=
  {| tc_name := name; tc_args := list_to_map args; tc_id := Some id |}.

(** A task manager that answers every request with ["ok"]. *)
Definition tm_ok : Request → http_outcome := λ _, success (VStr "ok").

(** The state [chat] starts from. *)
Definition initial (budget : Z) : ChatBotService.ChatBotState :=
  ChatBotService.mkState [SystemMessage "sys"; HumanMessage "hello"] budget
    None "tok".

(** Budget 1, the first answer asks for one tool, and so does the answer of
    the forced turn. *)
Definition scenario_C : Externals :=
  externals 1
    [ asks "checking" [call "read_task" [("task_id", VInt 3)] "c1"];
      asks "forced" [call "delete_task" [("task_id", VInt 3)] "c2"] ]
    tm_ok.

(** The model is unreachable: once with an error of the provider, once with
    an exception of another class. *)
Definition provider_error : Externals :=
  externals 3 [Raise (Exn ChatGoogleGenerativeAIError "quota exceeded")] tm_ok.

Definition provider_timeout : Externals :=
  externals 3 [Raise (Exn (OtherException "TimeoutError") "timed out")] tm_ok.

(** A plain world for the tool loop. *)
Definition plain : Externals := externals 3 [] tm_ok.

(** A turn with a failing call (an update that lists a field the tool does
    not know) followed by a good one. *)
Definition bad_update : ToolCall :=
  call "update_task"
    [("task_id", VInt 3); ("updated_fields", VList [VStr "priority"])] "c1".

Definition good_read : ToolCall := call "read_task" [("task_id", VInt 3)] "c2".

(** The good call again, with a token of the model's own making. *)
Definition forged_read : ToolCall :=
  call "read_task" [("task_id", VInt 3); ("token", VStr "someone else")] "c2".

(** A call to a tool that does not exist. *)
Definition unknown_call : ToolCall := call "frobnicate" [] "c3".

Definition after_turn (calls : list ToolCall) : ChatBotService.ChatBotState :=
  ChatBotService.mkState
    [SystemMessage "sys"; HumanMessage "hello"; AIMessage "checking" calls] 2 None "tok".

End Stub.

(** ** Vocabulary of the properties *)

(** A computation that only appends events satisfying [P] to the log. *)
Definition emits {A} (P : event → Prop) (m : M A) : Prop :=
  ∀ w, ∃ d, (m w).2 = w ++ d ∧ Forall P d.

(** The events a tool execution may leave in the log. *)
Definition tool_event (ev : event) : bool := is_tool_call ev || is_request ev.

(** A tool event of an execution under the credential [tok]: a tool is only
    ever invoked with [tok] under ["token"]. *)
Definition under_token (tok : string) (ev : event) : Prop :=
  match ev with
  | EvTool _ tool_input => tool_input !! "token" = Some (VStr tok)
  | EvRequest _ => True
  | _ => False
  end.

(** The ten names of the catalog. *)
Definition catalog_names : list string :=
  [ "create_task"; "read_task"; "task_list"; "update_task"; "delete_task";
    "create_collection"; "read_collection"; "collection_list";
    "update_collection"; "delete_collection" ].

(** The field names the two update tools know. *)
Definition task_fields : list string :=
  [ "title"; "description"; "completed"; "deadline"; "collection_id" ].

Definition collection_fields : list string := [ "name" ].

(** The entry of a request body for [field]: the value passed for it when the
    field is listed, no entry otherwise. *)
Definition forwarded (fields : list string) (field : string) (v : value)
  : option value :=
  if bool_decide (field ∈ fields) then Some v else None.

(** The first of the names [fs] that is not among [known]. *)
Fixpoint first_unknown (known fs : list string) : option string :=
  match fs with
  | [] => None
  | f :: fs' =>
      if bool_decide (f ∈ known) then first_unknown known fs' else Some f
  end.

(** The two update tools: name, parameter that identifies the object, known
    field names, and the keywords the [def] accepts. *)
Inductive updater : string → string → list string → list string → Prop :=
| updater_task :
    updater "update_task" "task_id" task_fields
      ["task_id"; "updated_fields"; "token"; "title"; "description";
       "completed"; "deadline"; "collection_id"]
| updater_collection :
    updater "update_collection" "collection_id" collection_fields
      ["collection_id"; "updated_fields"; "token"; "name"].

(** Two tool calls that differ at most in what the model put under
    ["token"]. *)
Definition same_but_token (tc1 tc2 : ToolCall) : Prop :=
  tc_name tc1 = tc_name tc2 ∧ tc_id tc1 = tc_id tc2 ∧
  delete "token" (tc_args tc1) = delete "token" (tc_args tc2).

(** The tool call as the loop leaves it, with the credential written into
    its arguments. *)
Definition with_token (tok : string) (tc : ToolCall) : ToolCall :=
  mkToolCall (tc_name tc) (<["token" := VStr tok]> (tc_args tc)) (tc_id tc).

(** The message a tool call is answered with when its result prints as
    [text]. *)
Definition tool_message (tc : ToolCall) (text : string) : Message :=
  ToolMessage ("Function result is: " +:+ text) (tc_id tc) (tc_name tc).

(** What the loop body ends with for [tc] once the result of the tool, or
    its exception, prints as [text]: the message can be made when the call
    carries an identifier. *)
Definition answered (tok : string) (tc : ToolCall) (text : string)
  : result (ToolCall * Message) :=
  match tc_id tc with
  | Some _ => Ok (with_token tok tc, tool_message tc text)
  | None => Raise missing_tool_call_id
  end.

(** [out] is what the loop body produces for [tc]. *)
Definition answers (tok : string) (tc : ToolCall) (out : ToolCall * Message)
  : Prop :=
  out.1 = with_token tok tc ∧ ∃ text, out.2 = tool_message tc text.

(** An assistant message that asks for tools: ["tool_calls"] is there and
    not empty. *)
Definition requests_tools (m : Message) : bool :=
  match tool_calls m with
  | Some tcs => bool_decide (0 < length tcs)%nat
  | None => false
  end.

(** What is known of the events [d] that a run adds when it enters [llm]
    with at most [b] model turns left: how often the two model-calling nodes
    ran, that every model invocation belongs to one of these runs, and that
    a run of [limit_llm_request] ends the log. *)
Definition within (b : nat) (d : log) : Prop :=
  (node_runs llm d ≤ b)%nat ∧
  (node_runs limit_llm_request d ≤ 1)%nat ∧
  model_calls d = (node_runs llm d + node_runs limit_llm_request d)%nat ∧
  (node_runs limit_llm_request d = 1%nat →
   ∃ d0 msgs,
     d = d0 ++ [EvNode limit_llm_request;
                EvModel GeminiRepository.with_tools_default msgs]).

(** The messages the model is given when node [n] runs on [state]. *)
Definition history_at (n : node) (state : ChatBotService.ChatBotState)
  : list Message :=
  match n with
  | limit_llm_request =>
      ChatBotService.messages state ++ [ChatBotService.limit_prompt]
  | _ => ChatBotService.messages state
  end.

(** The error of a model failure. *)
Definition llm_failure : exn :=
  Exn (HTTPException 500) "Error while calling LLM".

(** ** Vocabulary of the further properties *)

(** The HTTP method a tool of the catalog stands for, by its name. *)
Definition expected_method (name : string) : http_method :=
  if String.prefix "create" name then POST
  else if String.prefix "update" name then PATCH
  else if String.prefix "delete" name then DELETE
  else GET.

(** The keys of the query [task_list] sends. *)
Definition task_list_params : list string :=
  ["offset"; "limit"; "deadline"; "completed"].

(** A task manager that cannot be reached: the client raises; and a tool
    call that lacks its identifier. *)
Module Faulty.
Definition offline : Externals :=
  Stub.externals 3 []
    (λ _, Failed (Exn HTTPError "All connection attempts failed")).

(** A tool call as [tc], but without identifier: [{"id": None, ..}]. *)
Definition anonymous (tc : ToolCall) : ToolCall :=
  {| tc_name := tc_name tc; tc_args := tc_args tc; tc_id := None |}.
End Faulty.

(** What the loop invokes for a tool call: the name of the call, and its
    arguments with the credential written into them. *)
Definition invocation (tok : string) (tc : ToolCall)
  : string * gmap string value :=
  (tc_name tc, <["token" := VStr tok]> (tc_args tc)).

(** The nodes a log saw run, and the tool invocations it holds, in order. *)
Definition trace (d : log) : list node :=
  omap (λ ev, match ev with EvNode n => Some n | _ => None end) d.

Definition invocations (d : log) : list (string * gmap string value) :=
  omap (λ ev, match ev with
              | EvTool name tool_input => Some (name, tool_input)
              | _ => None
              end) d.

(** How often a node occurs in a list of nodes. *)
Definition occurrences (n : node) (l : list node) : nat :=
  length (filter (λ m, m = n) l).

(** The edges between the three nodes that do something, and the walks
    along them that start after [a]. *)
Definition successor (a b : node) : Prop :=
  (a = llm ∧ b = call_api) ∨ (a = call_api ∧ b = llm) ∨
  (a = call_api ∧ b = limit_llm_request).

Fixpoint route (a : node) (rest : list node) : Prop :=
  match rest with
  | [] => True
  | b :: rest' => successor a b ∧ route b rest'
  end.

(** A tool invocation has the credential [tok] under ["token"]; a model
    invocation goes to the model the tools are bound to. *)
Definition with_credential (tok : string) (ev : event) : Prop :=
  match ev with
  | EvTool _ tool_input => tool_input !! "token" = Some (VStr tok)
  | _ => True
  end.

Definition tool_bound (ev : event) : Prop :=
  match ev with
  | EvModel with_tools _ => with_tools = true
  | _ => True
  end.

(** * Properties *)

Import TaskManagerRepository GeminiRepository ChatBotService ChatBotRouter.

(** Unfolding the monad in a goal or a hypothesis. *)
Ltac unfold_monad :=
  unfold bind, ret, raise, lift, emit, get_log, try_except in *.

(** ** Counting events *)

Lemma count_app p (w1 w2 : log) :
  count p (w1 ++ w2) = (count p w1 + count p w2)%nat.
Proof. induction w1 as [|ev w1 IH]; simpl; [done|]. rewrite IH. lia. Qed.

Lemma count_none p (w : log) :
  Forall (λ ev, p ev = false) w → count p w = 0%nat.
Proof. induction 1 as [|ev w Hev _ IH]; simpl; [done|]. by rewrite Hev, IH. Qed.

Lemma count_tool_events p (d : log) :
  (∀ ev, tool_event ev = true → p ev = false) →
  Forall (λ ev, tool_event ev = true) d → count p d = 0%nat.
Proof.
  intros Hp Hd. apply count_none. eapply Forall_impl; [exact Hd|]. exact Hp.
Qed.

Lemma tool_event_not_model ev : tool_event ev = true → is_model_call ev = false.
Proof. by destruct ev. Qed.

Lemma tool_event_not_node n ev : tool_event ev = true → is_node n ev = false.
Proof. by destruct ev. Qed.

Lemma under_token_tool_event tok ev : under_token tok ev → tool_event ev = true.
Proof. by destruct ev. Qed.

(** ** The model gateway *)

Section gateway.
Context {E : Externals}.

Lemma llm_generate_log msgs with_tools w :
  (llm_generate msgs with_tools w).2 = w ++ [EvModel with_tools msgs].
Proof.
  unfold llm_generate, isinstance. unfold_monad.
  destruct (model_ainvoke w with_tools msgs) as [r|e]; [done|].
  by repeat case_bool_decide.
Qed.

Lemma llm_generate_None msgs with_tools w :
  (llm_generate msgs with_tools w).1 = Ok None ↔
  ∃ e, model_ainvoke w with_tools msgs = Raise e ∧
       (exn_cls e = ChatGoogleGenerativeAIError ∨ exn_cls e = LangChainException).
Proof.
  unfold llm_generate, isinstance. unfold_monad.
  destruct (model_ainvoke w with_tools msgs) as [r|e]; simpl.
  - split; [done|]. by intros (e & ? & _).
  - repeat case_bool_decide; simpl; split; try done.
    + intros _. exists e. auto.
    + intros _. exists e. auto.
    + intros (e' & [= <-] & [?|?]); done.
Qed.

Lemma llm_generate_Raise msgs with_tools w e :
  (llm_generate msgs with_tools w).1 = Raise e ↔
  model_ainvoke w with_tools msgs = Raise e ∧
  exn_cls e ≠ ChatGoogleGenerativeAIError ∧ exn_cls e ≠ LangChainException.
Proof.
  unfold llm_generate, isinstance. unfold_monad.
  destruct (model_ainvoke w with_tools msgs) as [r|e0]; simpl.
  - split; [done|]. by intros [? _].
  - repeat case_bool_decide; simpl; split; try done.
    + intros ([= <-] & ? & _); done.
    + intros ([= <-] & _ & ?); done.
    + intros [= <-]. done.
    + intros ([= <-] & _). done.
Qed.

End gateway.

(** ** What a computation adds to the log *)

Section emits.
Context {E : Externals}.

Lemma emits_mono {A} (P Q : event → Prop) (m : M A) :
  (∀ ev, P ev → Q ev) → emits P m → emits Q m.
Proof.
  intros HPQ Hm w. destruct (Hm w) as (d & Hd & HP).
  exists d. split; [done|]. by eapply Forall_impl.
Qed.

Lemma emits_ret {A} P (a : A) : emits P (ret a).
Proof. intros w. exists []. by rewrite app_nil_r. Qed.

Lemma emits_raise {A} P e : emits P (raise e : M A).
Proof. intros w. exists []. by rewrite app_nil_r. Qed.

Lemma emits_lift {A} P (r : result A) : emits P (lift r).
Proof. intros w. exists []. by rewrite app_nil_r. Qed.

Lemma emits_get_log P : emits P get_log.
Proof. intros w. exists []. by rewrite app_nil_r. Qed.

Lemma emits_emit (P : event → Prop) ev : P ev → emits P (emit ev).
Proof. intros Hev w. exists [ev]. split; [done|]. by constructor. Qed.

Lemma emits_bind_returned {A B} P (m : M A) (k : A → M B) :
  emits P m → (∀ a w w', m w = (Ok a, w') → emits P (k a)) → emits P (bind m k).
Proof.
  intros Hm Hk w. unfold bind.
  destruct (Hm w) as (d & Hd & Hfd).
  destruct (m w) as [[a|e] w1] eqn:Hmw; simpl in *; subst.
  - destruct (Hk a w (w ++ d) Hmw (w ++ d)) as (d' & Hd' & Hfd').
    exists (d ++ d'). rewrite Hd', <- app_assoc. split; [done|]. by apply Forall_app.
  - by exists d.
Qed.

Lemma emits_bind {A B} P (m : M A) (k : A → M B) :
  emits P m → (∀ a, emits P (k a)) → emits P (bind m k).
Proof. intros Hm Hk. apply emits_bind_returned; auto. Qed.

Lemma emits_try_except {A} P (m : M A) (handler : exn → M A) :
  emits P m → (∀ e, emits P (handler e)) → emits P (try_except m handler).
Proof.
  intros Hm Hh w. unfold try_except.
  destruct (Hm w) as (d & Hd & Hfd). destruct (m w) as [[a|e] w1]; simpl in *; subst.
  - by exists d.
  - destruct (Hh e (w ++ d)) as (d' & Hd' & Hfd').
    exists (d ++ d'). rewrite Hd', <- app_assoc. split; [done|]. by apply Forall_app.
Qed.

Lemma emits_for_each {A B} P (body : A → M B) (l : list A) :
  (∀ x, emits P (body x)) → emits P (for_each body l).
Proof.
  intros Hbody. induction l as [|x l IH]; simpl.
  - apply emits_ret.
  - apply emits_bind; [done|]. intros y.
    apply emits_bind; [done|]. intros ys. apply emits_ret.
Qed.

(** A tool's closing block sends one request and nothing else. *)
Lemma send_log req w : (send req w).2 = w ++ [EvRequest req].
Proof.
  unfold send, isinstance. unfold_monad.
  destruct (remote w req) as [r|e].
  - destruct (raise_for_status r) as [e|]; [|done].
    case_bool_decide; [|done]. by destruct (json r).
  - by case_bool_decide.
Qed.

Lemma emits_send req : emits (λ ev, is_request ev = true) (send req).
Proof. intros w. exists [EvRequest req]. rewrite send_log. split; [done|]. by constructor. Qed.

End emits.

Create HintDb emits.
#[local] Hint Resolve emits_ret emits_raise emits_lift emits_get_log emits_send
  : emits.

Ltac solve_emits :=
  repeat first
    [ solve [auto with emits]
    | apply emits_bind; [|intros ?]
    | apply emits_try_except; [|intros ?]
    | apply emits_for_each; intros ? ].

(** ** The catalog *)

Section tools.
Context {E : Externals}.

Lemma funcs_names : funcs.*1 = catalog_names.
Proof. reflexivity. Qed.

Lemma tools_are_funcs : tools = funcs.*2.
Proof. reflexivity. Qed.

Lemma emits_funcs name t kw :
  (name, t) ∈ funcs → emits (λ ev, is_request ev = true) (coroutine t kw).
Proof.
  unfold funcs. intros Hin.
  repeat (apply elem_of_cons in Hin as [Hin|Hin];
          [injection Hin as -> ->; simpl;
           unfold create_task, read_task, task_list, update_task, delete_task,
             create_collection, read_collection, collection_list,
             update_collection, delete_collection;
           solve_emits|]).
  by apply elem_of_nil in Hin.
Qed.

Lemma get_function_by_name_Ok name t :
  get_function_by_name name = Ok t → (name, t) ∈ funcs.
Proof.
  unfold get_function_by_name. intros Hget.
  destruct (list_to_map funcs !! name) as [t'|] eqn:Hl; [|done].
  injection Hget as ->. by apply elem_of_list_to_map_2.
Qed.

Lemma get_function_by_name_known name :
  name ∈ catalog_names → ∃ t, get_function_by_name name = Ok t ∧ tool_name t = name.
Proof.
  unfold catalog_names. intros Hin.
  repeat (apply elem_of_cons in Hin as [->|Hin]; [eexists; split; reflexivity|]).
  by apply elem_of_nil in Hin.
Qed.

Lemma get_function_by_name_unknown name :
  name ∉ catalog_names →
  get_function_by_name name =
    Raise (Exn NotImplementedError ("Function " +:+ name +:+ " is not implemented")).
Proof.
  intros Hnot. unfold get_function_by_name.
  destruct (list_to_map funcs !! name) as [t|] eqn:Hl; [|done].
  exfalso. apply Hnot. rewrite <- funcs_names.
  apply elem_of_list_to_map_2 in Hl. apply list_elem_of_fmap. by exists (name, t).
Qed.

Lemma emits_ainvoke t tool_input :
  (∀ kw, emits (λ ev, is_request ev = true) (coroutine t kw)) →
  emits (λ ev, ev = EvTool (tool_name t) tool_input ∨ is_request ev = true)
    (ainvoke t tool_input).
Proof.
  intros Ht. unfold ainvoke.
  apply emits_bind; [apply emits_emit; by left|]. intros _.
  apply emits_bind; [apply emits_lift|]. intros kw.
  eapply emits_mono; [|apply Ht]. by right.
Qed.

End tools.

(** ** Executing the tool calls of one turn *)

Section executor.
Context {E : Externals}.

Lemma for_each_app {A B} (body : A → M B) (l1 l2 : list A) w :
  for_each body (l1 ++ l2) w =
    match for_each body l1 w with
    | (Ok ys1, w1) =>
        match for_each body l2 w1 with
        | (Ok ys2, w2) => (Ok (ys1 ++ ys2), w2)
        | (Raise e, w2) => (Raise e, w2)
        end
    | (Raise e, w1) => (Raise e, w1)
    end.
Proof.
  revert w. induction l1 as [|x l1 IH]; intros w; simpl.
  - destruct (for_each body l2 w) as [[ys2|e] w2]; reflexivity.
  - unfold bind at 1 3. destruct (body x w) as [[y|e] w0]; [|done].
    unfold bind at 1 2. rewrite IH.
    destruct (for_each body l1 w0) as [[ys1|e] w1]; [|reflexivity].
    unfold bind, ret.
    destruct (for_each body l2 w1) as [[ys2|e] w2]; reflexivity.
Qed.

Lemma for_each_cons {A B} (body : A → M B) x (l : list A) w :
  for_each body (x :: l) w =
    match body x w with
    | (Ok y, w1) =>
        match for_each body l w1 with
        | (Ok ys, w2) => (Ok (y :: ys), w2)
        | (Raise e, w2) => (Raise e, w2)
        end
    | (Raise e, w1) => (Raise e, w1)
    end.
Proof.
  simpl. unfold bind, ret. destruct (body x w) as [[y|e] w1]; [|done].
  by destruct (for_each body l w1) as [[ys|e] w2].
Qed.

(** What the loop body does for a call whose name resolves to [t]. *)
Lemma call_tool_answered state_token tc t w :
  get_function_by_name (tc_name tc) = Ok t →
  call_tool state_token tc w =
    match ainvoke t (<["token" := VStr state_token]> (tc_args tc)) w with
    | (Ok v, w') => (answered state_token tc (py_str v), w')
    | (Raise e, w') => (answered state_token tc (str_exn e), w')
    end.
Proof.
  intros Hget.
  unfold call_tool, answered, ToolMessage_init, with_token, tool_message.
  rewrite Hget. unfold_monad. simpl.
  by destruct (ainvoke t _ w) as [[v|e] w']; destruct (tc_id tc).
Qed.

(** The same for a call that carries an identifier. *)
Lemma call_tool_resolved state_token tc t w :
  get_function_by_name (tc_name tc) = Ok t →
  is_Some (tc_id tc) →
  call_tool state_token tc w =
    match ainvoke t (<["token" := VStr state_token]> (tc_args tc)) w with
    | (Ok v, w') => (Ok (with_token state_token tc, tool_message tc (py_str v)), w')
    | (Raise e, w') => (Ok (with_token state_token tc, tool_message tc (str_exn e)), w')
    end.
Proof.
  intros Hget [id Hid]. rewrite (call_tool_answered _ _ _ _ Hget).
  unfold answered. by rewrite Hid.
Qed.

(** Without an identifier the body raises, after the tool has run. *)
Lemma call_tool_missing_id state_token tc t w :
  get_function_by_name (tc_name tc) = Ok t →
  tc_id tc = None →
  call_tool state_token tc w =
    (Raise missing_tool_call_id,
     (ainvoke t (<["token" := VStr state_token]> (tc_args tc)) w).2).
Proof.
  intros Hget Hid. rewrite (call_tool_answered _ _ _ _ Hget).
  unfold answered. rewrite Hid. by destruct (ainvoke t _ w) as [[v|e] w'].
Qed.

Lemma call_tool_unknown state_token tc w :
  tc_name tc ∉ catalog_names →
  call_tool state_token tc w =
    (Raise (Exn NotImplementedError
              ("Function " +:+ tc_name tc +:+ " is not implemented")), w).
Proof.
  intros Hnot. unfold call_tool.
  by rewrite (get_function_by_name_unknown _ Hnot).
Qed.

Lemma call_tool_Ok state_token tc w out w' :
  call_tool state_token tc w = (Ok out, w') → answers state_token tc out.
Proof.
  destruct (get_function_by_name (tc_name tc)) as [t|e] eqn:Hget.
  - rewrite (call_tool_answered _ _ _ _ Hget). unfold answered.
    destruct (ainvoke t _ w) as [[v|e] w1]; destruct (tc_id tc); try done;
      intros [= <- <-]; split; simpl; eauto.
  - unfold call_tool. rewrite Hget. by unfold_monad.
Qed.

(** When the body returns, the call had an identifier. *)
Lemma call_tool_Ok_id state_token tc w out w' :
  call_tool state_token tc w = (Ok out, w') → is_Some (tc_id tc).
Proof.
  destruct (get_function_by_name (tc_name tc)) as [t|e] eqn:Hget.
  - rewrite (call_tool_answered _ _ _ _ Hget). unfold answered.
    destruct (tc_id tc) as [id|]; [by eauto|].
    by destruct (ainvoke t _ w) as [[v|e] w1].
  - unfold call_tool. rewrite Hget. by unfold_monad.
Qed.

Lemma emits_call_tool state_token tc :
  emits (under_token state_token) (call_tool state_token tc).
Proof.
  unfold call_tool. apply emits_bind_returned; [apply emits_lift|].
  intros t w w' [= Hget]. apply get_function_by_name_Ok in Hget.
  apply emits_bind; [|intros ?; apply emits_bind; [apply emits_lift|];
                       intros ?; apply emits_ret].
  apply emits_try_except; [|intros ?; apply emits_ret].
  eapply emits_mono; [|apply emits_ainvoke; intros kw; by eapply emits_funcs].
  intros ev [->|Hreq]; simpl.
  - apply lookup_insert_eq.
  - by destruct ev.
Qed.

(** Whatever the model wrote under ["token"] is gone once the credential is
    written there. *)
Lemma call_tool_same_but_token state_token tc1 tc2 :
  same_but_token tc1 tc2 → call_tool state_token tc1 = call_tool state_token tc2.
Proof.
  intros (Hname & Hid & Hargs). unfold call_tool. rewrite Hname, Hid.
  assert (<["token" := VStr state_token]> (tc_args tc1)
          = <["token" := VStr state_token]> (tc_args tc2)) as ->; [|done].
  rewrite <- (insert_delete_eq (tc_args tc1)), <- (insert_delete_eq (tc_args tc2)).
  by rewrite Hargs.
Qed.

(** The loop, when it returns, has one entry per call, in the order of the
    calls. *)
Lemma for_each_call_tool_Ok state_token tcs w called w' :
  for_each (call_tool state_token) tcs w = (Ok called, w') →
  Forall2 (answers state_token) tcs called.
Proof.
  revert w called. induction tcs as [|tc tcs IH]; intros w called.
  - intros [= <- <-]. constructor.
  - rewrite for_each_cons.
    destruct (call_tool state_token tc w) as [[out|e] w1] eqn:Hcall; [|done].
    destruct (for_each _ tcs w1) as [[outs|e] w2] eqn:Hrest; [|done].
    intros [= <- <-]. constructor; [by eapply call_tool_Ok|by eapply IH].
Qed.

(** It returns when every name is in the catalog and every call carries an
    identifier. *)
Lemma for_each_call_tool_known state_token tcs w :
  Forall (λ tc, tc_name tc ∈ catalog_names) tcs →
  Forall (λ tc, is_Some (tc_id tc)) tcs →
  ∃ called w', for_each (call_tool state_token) tcs w = (Ok called, w').
Proof.
  intros Hall. revert w. induction Hall as [|tc tcs Hin _ IH]; intros w Hids.
  - by exists [], w.
  - apply Forall_cons in Hids as [Hid Hids].
    destruct (get_function_by_name_known _ Hin) as (t & Hget & _).
    rewrite for_each_cons, (call_tool_resolved _ _ _ _ Hget Hid).
    destruct (ainvoke t _ w) as [[v|e] w1];
      destruct (IH w1 Hids) as (called & w' & ->); eauto.
Qed.

(** With catalog names throughout, the loop returns, unless a call without
    identifier ends it. *)
Lemma for_each_call_tool_catalog state_token tcs w :
  Forall (λ tc, tc_name tc ∈ catalog_names) tcs →
  ∃ r w', for_each (call_tool state_token) tcs w = (r, w') ∧
          match r with
          | Ok _ => Forall (λ tc, is_Some (tc_id tc)) tcs
          | Raise e =>
              e = missing_tool_call_id ∧
              ¬ Forall (λ tc, is_Some (tc_id tc)) tcs
          end.
Proof.
  intros Hall. revert w. induction Hall as [|tc tcs Hin _ IH]; intros w.
  - by exists (Ok []), w.
  - destruct (get_function_by_name_known _ Hin) as (t & Hget & _).
    rewrite for_each_cons.
    destruct (tc_id tc) as [id|] eqn:Hid.
    + assert (is_Some (tc_id tc)) as Hsome by (by rewrite Hid).
      rewrite (call_tool_resolved _ _ _ _ Hget Hsome).
      destruct (ainvoke t _ w) as [[v|e] w1];
        destruct (IH w1) as ([called|e'] & w' & -> & Hr); eexists _, _;
        (split; [reflexivity|]); simpl;
        try (by constructor);
        (destruct Hr as [-> Hnot]; split; [done|];
         intros [_ ?]%Forall_cons; by apply Hnot).
    + rewrite (call_tool_missing_id _ _ _ _ Hget Hid).
      eexists _, _. split; [reflexivity|]. split; [done|].
      intros [[? Hsome] _]%Forall_cons. by rewrite Hid in Hsome.
Qed.

Lemma answers_messages state_token tcs called :
  Forall2 (answers state_token) tcs called →
  called.*1 = with_token state_token <$> tcs ∧
  Forall2 (λ tc m, ∃ text, m = tool_message tc text) tcs called.*2.
Proof.
  induction 1 as [|tc out tcs called [H1 H2] _ [IH1 IH2]].
  - by split; constructor.
  - split; [|by constructor]. rewrite !fmap_cons. by rewrite H1, IH1.
Qed.

End executor.

(** ** The nodes and the steps of the graph *)

Section steps.
Context {E : Externals}.

Lemma last_item_snoc (l : list Message) m : last_item (l ++ [m]) = Ok m.
Proof. unfold last_item. by rewrite last_snoc. Qed.

Lemma resolve_model_response_last state m :
  last (messages state) = Some m →
  resolve_model_response state = Ok (if requests_tools m then "call_api" else "end").
Proof.
  intros Hlast. unfold resolve_model_response, last_item, requests_tools.
  rewrite Hlast. by destruct (tool_calls m) as [tcs|]; [case_bool_decide|].
Qed.

Lemma call_task_manager_api_eq state prefix c tcs w :
  messages state = prefix ++ [AIMessage c tcs] →
  call_task_manager_api state w =
    match for_each (call_tool (token state)) tcs w with
    | (Ok called, w') =>
        (Ok (mkState (prefix ++ [AIMessage c called.*1]) (iterations state)
               (response state) (token state),
             mkUpdate called.*2 None), w')
    | (Raise e, w') => (Raise e, w')
    end.
Proof.
  intros Hm. unfold call_task_manager_api, with_last_tool_calls.
  rewrite Hm, last_item_snoc, last_snoc, removelast_last. unfold_monad. simpl.
  by destruct (for_each _ tcs w) as [[called|e] w'].
Qed.

Lemma call_task_manager_api_iterations state w out w' :
  call_task_manager_api state w = (Ok out, w') →
  iterations out.1 = iterations state ∧ upd_iterations out.2 = None.
Proof.
  unfold call_task_manager_api. unfold_monad.
  destruct (last_item (messages state)) as [m|e]; [|done].
  destruct (get_tool_calls m) as [tcs|e]; [|done].
  destruct (for_each _ tcs w) as [[called|e] w1]; [|done].
  by intros [= <- <-].
Qed.

Lemma emits_call_task_manager_api state :
  emits (under_token (token state)) (call_task_manager_api state).
Proof.
  unfold call_task_manager_api.
  repeat (apply emits_bind; [|intros ?]); try apply emits_lift; try apply emits_ret.
  apply emits_for_each. intros tc. apply emits_call_tool.
Qed.

Lemma step_START state w : step get_graph START state w = (Ok (llm, state), w).
Proof. reflexivity. Qed.

Lemma step_llm state w :
  step get_graph llm state w =
    match llm_generate (messages state) with_tools_default (w ++ [EvNode llm]) with
    | (Ok (Some r), w') =>
        (Ok (if requests_tools r then call_api else END,
             apply_update state (mkUpdate [r] (Some (iterations state - 1)))), w')
    | (Ok None, w') => (Raise llm_failure, w')
    | (Raise e, w') => (Raise e, w')
    end.
Proof.
  unfold step. cbn [nodes edges get_graph]. unfold call_llm_with_tools.
  unfold_monad.
  destruct (llm_generate _ _ _) as [[[r|]|e] w']; try done.
  cbn [fst snd follow].
  rewrite (resolve_model_response_last _ r) by apply last_snoc.
  by destruct (requests_tools r).
Qed.

Lemma step_limit_llm_request state w :
  step get_graph limit_llm_request state w =
    match llm_generate (messages state ++ [limit_prompt]) with_tools_default
            (w ++ [EvNode limit_llm_request]) with
    | (Ok (Some r), w') =>
        (Ok (END, apply_update state (mkUpdate [limit_prompt; r] None)), w')
    | (Ok None, w') => (Raise llm_failure, w')
    | (Raise e, w') => (Raise e, w')
    end.
Proof.
  unfold step. cbn [nodes edges get_graph]. unfold limit_llm_request_exceeded.
  unfold_monad.
  by destruct (llm_generate _ _ _) as [[[r|]|e] w'].
Qed.

Lemma step_call_api state w :
  step get_graph call_api state w =
    match call_task_manager_api state (w ++ [EvNode call_api]) with
    | (Ok out, w') =>
        let state' := apply_update out.1 out.2 in
        (Ok (if bool_decide (iterations state' ≤ 0) then limit_llm_request else llm,
             state'), w')
    | (Raise e, w') => (Raise e, w')
    end.
Proof.
  unfold step. cbn [nodes edges get_graph]. unfold_monad.
  destruct (call_task_manager_api _ _) as [[out|e] w']; [|done].
  cbn [follow]. unfold check_gemini_limit_request. by case_bool_decide.
Qed.

(** A step of a model-calling node starts with the model invocation, on the
    history of that node. *)
Lemma step_model_log n state w :
  n = llm ∨ n = limit_llm_request →
  (step get_graph n state w).2 =
    w ++ [EvNode n; EvModel with_tools_default (history_at n state)].
Proof.
  intros [->| ->]; [rewrite step_llm|rewrite step_limit_llm_request]; simpl.
  - pose proof (llm_generate_log (messages state) with_tools_default
                  (w ++ [EvNode llm])) as Hlog.
    destruct (llm_generate _ _ _) as [[[r|]|e] w']; simpl in *; subst;
      by rewrite <- app_assoc.
  - pose proof (llm_generate_log (messages state ++ [limit_prompt])
                  with_tools_default (w ++ [EvNode limit_llm_request])) as Hlog.
    destruct (llm_generate _ _ _) as [[[r|]|e] w']; simpl in *; subst;
      by rewrite <- (app_assoc w).
Qed.

End steps.

(** ** Runs of the graph *)

Section runs.
Context {E : Externals}.

Lemma run_END g fuel state w : run g fuel END state w = Some (Ok state, w).
Proof. by destruct fuel. Qed.

Lemma run_S g fuel n state w :
  n ≠ END →
  run g (S fuel) n state w =
    match step g n state w with
    | (Ok (n', state'), w') => run g fuel n' state' w'
    | (Raise e, w') => Some (Raise e, w')
    end.
Proof. by destruct n. Qed.

Lemma call_task_manager_api_tool_events state w :
  ∃ dt, (call_task_manager_api state w).2 = w ++ dt ∧
        Forall (λ ev, tool_event ev = true) dt.
Proof.
  destruct (emits_call_task_manager_api state w) as (dt & Hdt & Htok).
  exists dt. split; [done|]. eapply Forall_impl; [exact Htok|].
  apply under_token_tool_event.
Qed.

(** Entering [llm] with at most [b] model turns left, the run ends, whatever
    the model and the tools answer, and [2 * b + 1] steps are enough. *)
Lemma run_from_llm (b : nat) state w :
  (Z.to_nat (Z.max 1 (iterations state)) ≤ b)%nat →
  ∃ r d,
    (∀ fuel, (2 * b + 1 ≤ fuel)%nat →
             run get_graph fuel llm state w = Some (r, w ++ d)) ∧
    within b d.
Proof.
  revert state w. induction b as [|b IH]; intros state w Hb; [lia|].
  pose proof (step_llm state w) as Hllm.
  pose proof (llm_generate_log (messages state) with_tools_default
                (w ++ [EvNode llm])) as Hlog.
  destruct (llm_generate _ _ _) as [[[r|]|e] w1]; simpl in Hlog; subst w1.
  2,3: eexists _, [_; _]; split;
    [ intros [|fuel] ?; [lia|]; rewrite run_S, Hllm by done;
      by rewrite <- app_assoc
    | unfold within, node_runs, model_calls; simpl; split_and!; [lia..|done] ].
  destruct (requests_tools r).
  2: { eexists _, [_; _]. split.
       - intros [|fuel] ?; [lia|]. rewrite run_S, Hllm, run_END by done.
         by rewrite <- app_assoc.
       - unfold within, node_runs, model_calls; simpl; split_and!; [lia..|done]. }
  set (state1 := apply_update state _) in Hllm.
  set (w1 := (w ++ [EvNode llm]) ++ _) in Hllm.
  pose proof (step_call_api state1 w1) as Hapi.
  destruct (call_task_manager_api_tool_events state1 (w1 ++ [EvNode call_api]))
    as (dt & Hdt & Htool).
  pose proof (count_tool_events _ dt tool_event_not_model Htool) as Hc_model.
  pose proof (λ n, count_tool_events _ dt (tool_event_not_node n) Htool) as Hc_node.
  destruct (call_task_manager_api state1 _) as [[out|e] w2] eqn:Hcall;
    simpl in Hdt; subst w2.
  2: { eexists _, ([_; _] ++ [_] ++ dt). split.
       - intros [|[|fuel]] ?; [lia..|].
         rewrite run_S, Hllm, run_S, Hapi by done. subst w1.
         by rewrite <- !app_assoc.
       - unfold within, node_runs, model_calls in *.
         rewrite !count_app, Hc_model, !Hc_node. simpl. split_and!; [lia..|done]. }
  destruct (call_task_manager_api_iterations _ _ _ _ Hcall) as [Hit Hupd].
  cbn zeta in Hapi. set (state2 := apply_update out.1 out.2) in Hapi.
  assert (iterations state2 = iterations state - 1) as Hit2.
  { subst state2. unfold apply_update. simpl. by rewrite Hupd, Hit. }
  case_bool_decide as Hle.
  - pose proof (step_limit_llm_request state2 ((w1 ++ [EvNode call_api]) ++ dt))
      as Hlim.
    pose proof (llm_generate_log (messages state2 ++ [limit_prompt])
                  with_tools_default
                  (((w1 ++ [EvNode call_api]) ++ dt) ++ [EvNode limit_llm_request]))
      as Hlog2.
    destruct (llm_generate _ _ _) as [[[r2|]|e] w3]; simpl in Hlog2; subst w3.
    all: eexists _, ([_; _] ++ [_] ++ dt ++ [_; _]); split;
      [ intros [|[|[|fuel]]] ?; [lia..|];
        rewrite run_S, Hllm, run_S, Hapi, run_S, Hlim, ?run_END by done;
        subst w1; by rewrite <- !app_assoc
      | unfold within, node_runs, model_calls in *;
        rewrite !count_app, Hc_model, !Hc_node; simpl; split_and!; [lia..|];
        intros _;
        eexists ([EvNode llm; EvModel with_tools_default (messages state)]
                   ++ [EvNode call_api] ++ dt), _;
        reflexivity ].
  - destruct (IH state2 ((w1 ++ [EvNode call_api]) ++ dt))
      as (r' & d' & Hrun & Hb1 & Hb2 & Hb3 & Hb4); [lia|].
    eexists r', ([_; _] ++ [_] ++ dt ++ d'). split.
    + intros [|[|fuel]] ?; [lia..|].
      rewrite run_S, Hllm, run_S, Hapi, Hrun by (done || lia).
      subst w1. by rewrite <- !app_assoc.
    + unfold within, node_runs, model_calls in *.
      rewrite !count_app, Hc_model, !Hc_node. simpl. split_and!; [lia..|].
      intros Hone. destruct Hb4 as (d0 & msgs & ->); [lia|].
      exists ([EvNode llm; EvModel with_tools_default (messages state)]
                ++ [EvNode call_api] ++ dt ++ d0), msgs.
      by rewrite <- !app_assoc.
Qed.

End runs.

(** ** Two facts about the graph *)

(** The tool loop, when the node returns: the calls it ran, and what it
    hands to the graph. *)
Lemma call_task_manager_api_Ok {E : Externals} state w out w' :
  call_task_manager_api state w = (Ok out, w') →
  ∃ m tcs called,
    last (messages state) = Some m ∧ tool_calls m = Some tcs ∧
    for_each (call_tool (token state)) tcs w = (Ok called, w') ∧
    out = (with_last_tool_calls state called.*1, mkUpdate called.*2 None).
Proof.
  unfold call_task_manager_api, last_item, get_tool_calls. unfold_monad.
  destruct (last (messages state)) as [m|] eqn:Hlast; [|done].
  destruct (tool_calls m) as [tcs|] eqn:Htcs; [|done].
  destruct (for_each _ tcs w) as [[called|e] w1] eqn:Hloop; [|done].
  intros [= <- <-]. by exists m, tcs, called.
Qed.

Lemma with_last_tool_calls_length state tcs :
  length (messages (with_last_tool_calls state tcs)) = length (messages state).
Proof.
  unfold with_last_tool_calls. simpl.
  destruct (messages state) as [|m0 l] using rev_ind; [done|].
  by rewrite last_snoc, removelast_last, !length_app.
Qed.

(** The limit check sits on the edge out of [call_api] and nowhere else. *)
Lemma limit_check_only_after_call_api {E : Externals} n path_map :
  edges get_graph n = Some (ConditionalEdges check_gemini_limit_request path_map) →
  n = call_api.
Proof.
  destruct n; simpl; try done.
  intros [= Hsame _].
  assert (resolve_model_response (mkState [] 0 None "tok")
          = check_gemini_limit_request (mkState [] 0 None "tok")) as Habs
    by (by rewrite Hsame).
  done.
Qed.

(** The forced turn goes through [llm_generate] with the parameter's default,
    that is, to the model the tools are bound to. *)
Lemma limit_llm_request_exceeded_log {E : Externals} state w :
  (limit_llm_request_exceeded state w).2 =
    w ++ [EvModel true (messages state ++ [limit_prompt])].
Proof.
  unfold limit_llm_request_exceeded. unfold_monad.
  pose proof (llm_generate_log (messages state ++ [limit_prompt])
                with_tools_default w) as Hlog.
  by destruct (llm_generate _ _ _) as [[[r|]|e] w'].
Qed.

(** ** The field filter of the update tools *)

Section updates.
Context {E : Externals}.

Lemma dict_comprehension_listed (data : gmap string value) (fs : list string)
    (acc : gmap string value) :
  Forall (λ f, is_Some (data !! f)) fs →
  ∃ m, dict_comprehension data (VStr <$> fs) acc = Ok m ∧
       ∀ k, m !! k = if bool_decide (k ∈ fs) then data !! k else acc !! k.
Proof.
  intros Hall. revert acc. induction Hall as [|f fs [v Hv] _ IH]; intros acc.
  - exists acc. split; [done|]. intros k. case_bool_decide; [|done].
    by apply elem_of_nil in H.
  - rewrite fmap_cons. cbn [dict_comprehension]. rewrite Hv.
    destruct (IH (<[f := v]> acc)) as (m & -> & Hm).
    exists m. split; [done|]. intros k. rewrite Hm.
    destruct (decide (k = f)) as [->|Hne].
    + rewrite (bool_decide_eq_true_2 (f ∈ f :: fs)) by apply list_elem_of_here.
      case_bool_decide; [done|]. by rewrite lookup_insert_eq.
    + rewrite lookup_insert_ne by done.
      repeat case_bool_decide; try done.
      * exfalso. apply H0. by apply list_elem_of_further.
      * exfalso. apply elem_of_cons in H0 as [?|?]; done.
Qed.

Lemma first_unknown_Some (known fs : list string) f0 :
  first_unknown known fs = Some f0 → f0 ∈ fs ∧ f0 ∉ known.
Proof.
  induction fs as [|f fs IH]; simpl; [done|].
  case_bool_decide as Hf.
  - intros [? ?]%IH. split; [by apply list_elem_of_further|done].
  - intros [= <-]. split; [apply list_elem_of_here|done].
Qed.

Lemma first_unknown_exists (known fs : list string) f :
  f ∈ fs → f ∉ known → is_Some (first_unknown known fs).
Proof.
  intros Hin Hnot. induction fs as [|f' fs IH]; [by apply elem_of_nil in Hin|].
  simpl. case_bool_decide as Hf; [|done].
  apply IH. apply elem_of_cons in Hin as [->|?]; done.
Qed.

Lemma dict_comprehension_first_unknown (data : gmap string value)
    (known fs : list string) f0 acc :
  (∀ f, f ∈ known ↔ is_Some (data !! f)) →
  first_unknown known fs = Some f0 →
  dict_comprehension data (VStr <$> fs) acc = Raise (Exn KeyError f0).
Proof.
  intros Hknown. revert acc. induction fs as [|f fs IH]; intros acc; [done|].
  rewrite fmap_cons. cbn [dict_comprehension first_unknown].
  case_bool_decide as Hf.
  - apply Hknown in Hf as [v ->]. intros Hfirst. by apply IH.
  - intros [= <-]. destruct (data !! f) as [v|] eqn:Hv; [|done].
    exfalso. apply Hf, Hknown. by exists v.
Qed.

Lemma task_data_dom (title description completed deadline collection_id : value) :
  dom ({[ "title" := title;
          "description" := description;
          "completed" := completed;
          "deadline" := deadline;
          "collection_id" := collection_id ]} : gmap string value)
  = list_to_set task_fields.
Proof. vm_compute. reflexivity. Qed.

Lemma collection_data_dom (name : value) :
  dom ({[ "name" := name ]} : gmap string value) = list_to_set collection_fields.
Proof. vm_compute. reflexivity. Qed.

(** Membership in the list of field names, against the keys of [data]. *)
Lemma known_field (data : gmap string value) (known : list string) f :
  dom data = list_to_set known → (f ∈ known ↔ is_Some (data !! f)).
Proof. intros Hdom. by rewrite <- elem_of_dom, Hdom, elem_of_list_to_set. Qed.

(** The body of an update whose fields are all known: its keys are the
    listed names, its values those of [data]. *)
Lemma select_fields_listed (data : gmap string value) (known fs : list string) :
  dom data = list_to_set known →
  Forall (λ f, f ∈ known) fs →
  ∃ body, select_fields data (VList (VStr <$> fs)) = Ok body ∧
          dom body = list_to_set fs ∧
          ∀ k, body !! k = if bool_decide (k ∈ fs) then data !! k else None.
Proof.
  intros Hdom Hall.
  destruct (dict_comprehension_listed data fs ∅) as (body & Hbody & Hlook).
  { eapply Forall_impl; [exact Hall|]. intros f. by apply known_field. }
  exists body. split_and!; [done| |].
  - apply set_eq. intros k. rewrite elem_of_dom, elem_of_list_to_set, Hlook.
    case_bool_decide as Hk.
    + split; [done|]. intros _. apply (known_field data known k Hdom).
      by eapply Forall_forall in Hall.
    + rewrite lookup_empty. split; [by intros [? ?]|done].
  - intros k. rewrite Hlook. case_bool_decide; [done|apply lookup_empty].
Qed.

Lemma select_fields_first_unknown (data : gmap string value)
    (known fs : list string) f0 :
  dom data = list_to_set known →
  first_unknown known fs = Some f0 →
  select_fields data (VList (VStr <$> fs)) = Raise (Exn KeyError f0).
Proof.
  intros Hdom Hfirst. unfold select_fields. simpl.
  eapply dict_comprehension_first_unknown; [|exact Hfirst].
  intros f. by apply known_field.
Qed.

End updates.

(** ** The scenarios of the specification, on the test doubles *)

(** Budget 1, the first answer asks for no tool: one model invocation, and
    its text is the answer. *)
Example scenario_A :
  @chat (Stub.externals 1 [Stub.answer "hi"] Stub.tm_ok) "sys" "hello" "tok" []
  = Some (Ok "hi",
          [EvNode llm; EvModel true [SystemMessage "sys"; HumanMessage "hello"]]).
Proof. vm_compute. reflexivity. Qed.

(** Budget 2, the first answer asks for two tools, of which one fails, the
    second answer for none: two model invocations, two tool executions, and
    the second text is the answer. *)
Example scenario_B :
  ∃ w,
    @chat (Stub.externals 2
             [Stub.asks "checking" [Stub.bad_update; Stub.good_read];
              Stub.answer "done"] Stub.tm_ok) "sys" "hello" "tok" []
    = Some (Ok "done", w) ∧
    model_calls w = 2%nat ∧ count is_tool_call w = 2%nat ∧
    node_runs limit_llm_request w = 0%nat.
Proof. eexists. vm_compute. done. Qed.

(** Budget 0: the first model turn still takes place, no check precedes it. *)
Example no_check_before_first_turn :
  @graph_ainvoke (Stub.externals 0 [Stub.answer "hi"] Stub.tm_ok)
    (Stub.initial 0) []
  = Some (Ok (apply_update (Stub.initial 0)
                (mkUpdate [AIMessage "hi" []] (Some (-1)))),
          [EvNode llm; EvModel true [SystemMessage "sys"; HumanMessage "hello"]]).
Proof. vm_compute. reflexivity. Qed.

(** * The claims *)

(** C1.  The code at the failing input: budget 1, the first answer asks for
    one tool, so the forced turn follows.  Its model invocation, the last
    event of the run, goes to the model the tools are bound to
    ([with_tools] is [true]), not to the plain one.  The tool call that the
    forced answer carries is not executed: the log ends with that
    invocation. *)
Theorem forced_turn_invokes_tool_bound_model :
  ∃ msgs1 tool_input req msgs2,
    @chat Stub.scenario_C "sys" "hello" "tok" [] =
      Some (Ok "forced",
            [ EvNode llm; EvModel true msgs1;
              EvNode call_api; EvTool "read_task" tool_input; EvRequest req;
              EvNode limit_llm_request; EvModel true msgs2 ]) ∧
    last msgs2 = Some limit_prompt.
Proof. vm_compute. by repeat eexists. Qed.

(** C2.  For every iteration budget N >= 1 and whatever the model answers
    (messages with or without tool calls, failures) and the tools do, a run
    of the graph ends, within [steps_for N] steps and with the same outcome
    for any larger number of steps.  It makes at most N + 1 model
    invocations: at most N from the node [llm], at most one from
    [limit_llm_request], and that one is the last thing the run does. *)
Theorem orchestrator_terminates_within_budget {E : Externals}
    (state : ChatBotState) (w : log) :
  1 ≤ iterations state →
  ∃ r d,
    graph_ainvoke state w = Some (r, w ++ d) ∧
    (∀ fuel, (steps_for (iterations state) ≤ fuel)%nat →
             run get_graph fuel START state w = Some (r, w ++ d)) ∧
    Z.of_nat (model_calls d) ≤ iterations state + 1 ∧
    Z.of_nat (node_runs llm d) ≤ iterations state ∧
    (node_runs limit_llm_request d ≤ 1)%nat ∧
    model_calls d = (node_runs llm d + node_runs limit_llm_request d)%nat ∧
    (node_runs limit_llm_request d = 1%nat →
     ∃ d0 msgs,
       d = d0 ++ [EvNode limit_llm_request; EvModel with_tools_default msgs]).
Proof.
  intros HN.
  destruct (run_from_llm (Z.to_nat (iterations state)) state w)
    as (r & d & Hrun & Hllm & Hlim & Hcalls & Hlast); [lia|].
  assert (∀ fuel, (steps_for (iterations state) ≤ fuel)%nat →
                  run get_graph fuel START state w = Some (r, w ++ d)) as Hfuel.
  { unfold steps_for. intros [|fuel] Hfuel; [lia|].
    rewrite run_S, step_START by done. apply Hrun. lia. }
  exists r, d. split_and!; try done; [by apply Hfuel|lia..].
Qed.

Lemma orchestrator_terminates_within_budget_witness :
  1 ≤ iterations (Stub.initial 1) ∧
  ∃ r d, @graph_ainvoke Stub.scenario_C (Stub.initial 1) [] = Some (r, d) ∧
         (model_calls d ≤ 2)%nat.
Proof.
  assert (1 ≤ iterations (Stub.initial 1)) as HN by (simpl; lia).
  split; [exact HN|].
  destruct (@orchestrator_terminates_within_budget Stub.scenario_C
              (Stub.initial 1) [] HN) as (r & d & Hrun & _ & Hcalls & _).
  exists r, d. split; [exact Hrun|]. simpl in Hcalls. lia.
Defined.

(** C3, as stated, fails in two ways.  A call without identifier: the
    tool raises, the handler turns the exception into text, and then the
    [ToolMessage] for it cannot be made; this error is raised after the
    [try] statement and ends the node and the run.  And a failed call that
    is followed by a call of an unknown tool: the turn ends with the
    [NotImplementedError] of C4, and the message of the failed call, already
    made, is never appended. *)
Lemma failed_tool_call_can_end_the_run :
  (∃ w2,
     @ainvoke Stub.plain (@update_task_tool Stub.plain)
       (<["token" := VStr "tok"]> (tc_args (Faulty.anonymous Stub.bad_update)))
       [EvNode call_api] = (Raise (Exn KeyError "priority"), w2) ∧
     run (@get_graph Stub.plain) 3 call_api
       (Stub.after_turn [Faulty.anonymous Stub.bad_update]) []
     = Some (Raise missing_tool_call_id, w2)) ∧
  (∃ w2,
     @ainvoke Stub.plain (@update_task_tool Stub.plain)
       (<["token" := VStr "tok"]> (tc_args Stub.bad_update))
       [EvNode call_api] = (Raise (Exn KeyError "priority"), w2) ∧
     run (@get_graph Stub.plain) 3 call_api
       (Stub.after_turn [Stub.bad_update; Stub.unknown_call]) []
     = Some (Raise (Exn NotImplementedError
                      "Function frobnicate is not implemented"), w2)).
Proof. split; eexists; split; vm_compute; reflexivity. Qed.

(** C3, amended.  A tool call of a turn that carries an identifier and whose
    execution raises an exception [e] does not end the run, provided the
    calls after it name tools of the catalog and carry identifiers too: the
    loop body returns the tool message whose text is
    ["Function result is: "] followed by [str(e)], a text that is not empty;
    the remaining calls of the turn are executed, starting from the log the
    failed call left; and the step of [call_api] returns, with the message
    of the failed call in its place among the results, and goes on to [llm]
    or to [limit_llm_request]. *)
Theorem tool_failure_is_contained {E : Externals}
    (state : ChatBotState) (prefix : list Message) (c : string)
    (tcs1 : list ToolCall) (tc : ToolCall) (tcs2 : list ToolCall)
    (w : log) (called1 : list (ToolCall * Message)) (w1 : log)
    (t : StructuredTool) (e : exn) (w2 : log) :
  messages state = prefix ++ [AIMessage c (tcs1 ++ tc :: tcs2)] →
  is_Some (tc_id tc) →
  Forall (λ tc, tc_name tc ∈ catalog_names) tcs2 →
  Forall (λ tc, is_Some (tc_id tc)) tcs2 →
  for_each (call_tool (token state)) tcs1 (w ++ [EvNode call_api])
    = (Ok called1, w1) →
  get_function_by_name (tc_name tc) = Ok t →
  ainvoke t (<["token" := VStr (token state)]> (tc_args tc)) w1 = (Raise e, w2) →
  ∃ called2 w' n' state',
    call_tool (token state) tc w1 =
      (Ok (with_token (token state) tc, tool_message tc (str_exn e)), w2) ∧
    content (tool_message tc (str_exn e)) ≠ EmptyString ∧
    for_each (call_tool (token state)) tcs2 w2 = (Ok called2, w') ∧
    length called2 = length tcs2 ∧
    step get_graph call_api state w = (Ok (n', state'), w') ∧
    (n' = llm ∨ n' = limit_llm_request) ∧
    messages state' =
      prefix
        ++ [AIMessage c (with_token (token state) <$> (tcs1 ++ tc :: tcs2))]
        ++ called1.*2 ++ [tool_message tc (str_exn e)] ++ called2.*2.
Proof.
  intros Hm Hid Hknown Hids Hloop1 Hget Hraise.
  destruct (for_each_call_tool_known (token state) tcs2 w2 Hknown Hids)
    as (called2 & w' & Hloop2).
  assert (call_tool (token state) tc w1 =
            (Ok (with_token (token state) tc, tool_message tc (str_exn e)), w2))
    as Hcall by (by rewrite (call_tool_resolved _ _ _ _ Hget Hid), Hraise).
  assert (for_each (call_tool (token state)) (tcs1 ++ tc :: tcs2)
            (w ++ [EvNode call_api])
          = (Ok (called1
                   ++ (with_token (token state) tc, tool_message tc (str_exn e))
                   :: called2), w')) as Hloop.
  { by rewrite for_each_app, Hloop1, for_each_cons, Hcall, Hloop2. }
  pose proof (for_each_call_tool_Ok _ _ _ _ _ Hloop) as Hans.
  destruct (answers_messages _ _ _ Hans) as [Hcalls _].
  pose proof (for_each_call_tool_Ok _ _ _ _ _ Hloop2) as Hans2.
  exists called2, w'. eexists _, _. split_and!.
  - exact Hcall.
  - done.
  - exact Hloop2.
  - symmetry. by eapply Forall2_length.
  - by rewrite step_call_api, (call_task_manager_api_eq _ _ _ _ _ Hm), Hloop.
  - case_bool_decide; auto.
  - simpl. unfold add_messages.
    by rewrite Hcalls, !fmap_app, !fmap_cons, <- !app_assoc.
Qed.

Lemma tool_failure_is_contained_witness :
  ∃ t w2 n' state' w',
    @get_function_by_name Stub.plain (tc_name Stub.bad_update) = Ok t ∧
    @ainvoke Stub.plain t (<["token" := VStr "tok"]> (tc_args Stub.bad_update))
      ([] ++ [EvNode call_api]) = (Raise (Exn KeyError "priority"), w2) ∧
    step (@get_graph Stub.plain) call_api
      (Stub.after_turn [Stub.bad_update; Stub.good_read]) []
      = (Ok (n', state'), w') ∧
    messages state' !! 3%nat =
      Some (ToolMessage "Function result is: priority" (Some "c1") "update_task").
Proof.
  assert (Forall (λ tc, tc_name tc ∈ catalog_names) [Stub.good_read]) as Hknown
    by repeat constructor.
  assert (Forall (λ tc, is_Some (tc_id tc)) [Stub.good_read]) as Hids
    by (repeat constructor; by eexists).
  assert (is_Some (tc_id Stub.bad_update)) as Hid by (by eexists).
  assert (@ainvoke Stub.plain (@update_task_tool Stub.plain)
            (<["token" := VStr "tok"]> (tc_args Stub.bad_update))
            ([] ++ [EvNode call_api])
          = (Raise (Exn KeyError "priority"),
             [EvNode call_api;
              EvTool "update_task"
                (<["token" := VStr "tok"]> (tc_args Stub.bad_update))]))
    as Hraise by (vm_compute; reflexivity).
  destruct (@tool_failure_is_contained Stub.plain
              (Stub.after_turn [Stub.bad_update; Stub.good_read])
              [SystemMessage "sys"; HumanMessage "hello"] "checking"
              [] Stub.bad_update [Stub.good_read] [] [] _ _ _ _
              eq_refl Hid Hknown Hids eq_refl eq_refl Hraise)
    as (called2 & w' & n' & state' & _ & _ & _ & _ & Hstep & _ & Hmsgs).
  eexists _, _, n', state', w'. split_and!.
  - reflexivity.
  - exact Hraise.
  - exact Hstep.
  - rewrite Hmsgs. reflexivity.
Defined.

(** C4.  A tool call whose name is not one of the ten catalog names makes
    [get_function_by_name] raise [NotImplementedError].  The loop body
    raises it before anything of that call reaches the log, and the error
    handler around the tool execution does not see it.  A turn that holds
    such a call after calls with catalog names ends with an error, and so
    do the node, the step and the run: no tool message is appended for the
    turn, and the calls after the unknown one are not executed.  The error
    is the [NotImplementedError] when the calls before the unknown one
    carry identifiers, which is when the loop gets to it; a call without
    identifier among them ends the turn before, with the error of its
    [ToolMessage]. *)
Theorem unknown_tool_aborts_run {E : Externals}
    (state : ChatBotState) (prefix : list Message) (c : string)
    (tcs1 : list ToolCall) (tc : ToolCall) (tcs2 : list ToolCall)
    (w : log) (fuel : nat) :
  messages state = prefix ++ [AIMessage c (tcs1 ++ tc :: tcs2)] →
  Forall (λ tc, tc_name tc ∈ catalog_names) tcs1 →
  tc_name tc ∉ catalog_names →
  let err := Exn NotImplementedError
               ("Function " +:+ tc_name tc +:+ " is not implemented") in
  get_function_by_name (tc_name tc) = Raise err ∧
  (∀ w0, call_tool (token state) tc w0 = (Raise err, w0)) ∧
  ∃ e w1,
    call_task_manager_api state (w ++ [EvNode call_api]) = (Raise e, w1) ∧
    step get_graph call_api state w = (Raise e, w1) ∧
    run get_graph (S fuel) call_api state w = Some (Raise e, w1) ∧
    (e = err ∨ e = missing_tool_call_id) ∧
    (Forall (λ tc, is_Some (tc_id tc)) tcs1 →
     e = err ∧
     ∃ called1,
       for_each (call_tool (token state)) tcs1 (w ++ [EvNode call_api])
       = (Ok called1, w1) ∧
       call_tool (token state) tc w1 = (Raise err, w1)).
Proof.
  intros Hm Hknown Hunknown err.
  assert (∀ w0, call_tool (token state) tc w0 = (Raise err, w0)) as Hcall
    by (intros w0; by apply call_tool_unknown).
  split; [by apply get_function_by_name_unknown|].
  split; [exact Hcall|].
  destruct (for_each_call_tool_catalog (token state) tcs1
              (w ++ [EvNode call_api]) Hknown) as (r & w1 & Hloop1 & Hr).
  assert (∃ e, call_task_manager_api state (w ++ [EvNode call_api])
               = (Raise e, w1) ∧
               (e = err ∨ e = missing_tool_call_id) ∧
               (Forall (λ tc, is_Some (tc_id tc)) tcs1 →
                e = err ∧
                ∃ called1,
                  for_each (call_tool (token state)) tcs1
                    (w ++ [EvNode call_api]) = (Ok called1, w1) ∧
                  call_tool (token state) tc w1 = (Raise err, w1)))
    as (e & Hnode & He & Hids).
  { rewrite (call_task_manager_api_eq _ _ _ _ _ Hm), for_each_app, Hloop1.
    destruct r as [called1|e].
    - exists err. rewrite for_each_cons, (Hcall w1).
      split_and!; [done|by left|]. intros _. split; [done|].
      by exists called1.
    - destruct Hr as [-> Hnot]. exists missing_tool_call_id.
      split_and!; [done|by right|]. intros Hall. by destruct Hnot. }
  assert (step get_graph call_api state w = (Raise e, w1)) as Hstep
    by (by rewrite step_call_api, Hnode).
  exists e, w1. split_and!; try done.
  by rewrite run_S, Hstep.
Qed.

Lemma unknown_tool_aborts_run_witness :
  (tc_name Stub.unknown_call ∉ catalog_names) ∧
  ∃ w1,
    run (@get_graph Stub.plain) 1 call_api
      (Stub.after_turn [Stub.good_read; Stub.unknown_call; Stub.bad_update]) []
    = Some (Raise (Exn NotImplementedError "Function frobnicate is not implemented"),
            w1).
Proof.
  assert (tc_name Stub.unknown_call ∉ catalog_names) as Hunknown.
  { apply (bool_decide_unpack _). vm_compute. exact I. }
  assert (Forall (λ tc, tc_name tc ∈ catalog_names) [Stub.good_read]) as Hknown
    by repeat constructor.
  assert (Forall (λ tc, is_Some (tc_id tc)) [Stub.good_read]) as Hids
    by (repeat constructor; by eexists).
  split; [exact Hunknown|].
  destruct (@unknown_tool_aborts_run Stub.plain
              (Stub.after_turn [Stub.good_read; Stub.unknown_call; Stub.bad_update])
              [SystemMessage "sys"; HumanMessage "hello"] "checking"
              [Stub.good_read] Stub.unknown_call [Stub.bad_update] [] 0%nat
              eq_refl Hknown Hunknown)
    as (_ & _ & e & w1 & _ & _ & Hrun & _ & Hgood).
  destruct (Hgood Hids) as [-> _].
  exists w1. exact Hrun.
Defined.

(** C5, as stated, fails: the model raises an exception that is neither a
    [ChatGoogleGenerativeAIError] nor a [LangChainException]; [llm_generate]
    does not return [None] but lets it through, and the run ends with that
    exception, not with the HTTP 500 of the orchestrator. *)
Lemma provider_exception_escapes_llm_generate :
  (∃ e, @model_ainvoke Stub.provider_timeout [] true [HumanMessage "hello"]
        = Raise e) ∧
  (@llm_generate Stub.provider_timeout [HumanMessage "hello"] true []).1
    ≠ Ok None ∧
  ∃ w, @graph_ainvoke Stub.provider_timeout (Stub.initial 3) [] =
         Some (Raise (Exn (OtherException "TimeoutError") "timed out"), w).
Proof.
  split_and!.
  - by eexists.
  - vm_compute. discriminate.
  - vm_compute. by eexists.
Qed.

(** C5, amended.  [llm_generate] returns [None] exactly when the provider
    call raises a [ChatGoogleGenerativeAIError] or a [LangChainException].
    Whenever it returns [None] in a node, the step raises the HTTP 500 error
    right after the model invocation, and the run ends with that error:
    there is no next state.  On the first invocation the whole run consists
    of that one model invocation; no tool is executed and no message is
    produced. *)
Theorem model_failure_is_fatal {E : Externals}
    (n : node) (state : ChatBotState) (w : log) :
  n = llm ∨ n = limit_llm_request →
  (llm_generate (history_at n state) with_tools_default (w ++ [EvNode n])).1
    = Ok None →
  let w' := w ++ [EvNode n; EvModel with_tools_default (history_at n state)] in
  (∀ msgs with_tools w0,
     (llm_generate msgs with_tools w0).1 = Ok None ↔
     ∃ e, model_ainvoke w0 with_tools msgs = Raise e ∧
          (exn_cls e = ChatGoogleGenerativeAIError ∨
           exn_cls e = LangChainException)) ∧
  step get_graph n state w = (Raise llm_failure, w') ∧
  (∀ fuel, run get_graph (S fuel) n state w = Some (Raise llm_failure, w')) ∧
  (n = llm → graph_ainvoke state w = Some (Raise llm_failure, w')).
Proof.
  intros Hn Hnone w'.
  assert (step get_graph n state w = (Raise llm_failure, w')) as Hstep.
  { pose proof (step_model_log n state w Hn) as Hlog. fold w' in Hlog.
    destruct Hn as [-> | ->]; simpl in Hnone.
    - rewrite step_llm in Hlog |- *.
      destruct (llm_generate _ _ _) as [[[r|]|e] w1]; simpl in *; by subst.
    - rewrite step_limit_llm_request in Hlog |- *.
      destruct (llm_generate _ _ _) as [[[r|]|e] w1]; simpl in *; by subst. }
  split_and!.
  - intros msgs with_tools w0. apply llm_generate_None.
  - exact Hstep.
  - intros fuel. rewrite run_S, Hstep; [done|]. by destruct Hn as [-> | ->].
  - intros ->. unfold graph_ainvoke, steps_for.
    replace (2 * Z.to_nat (1 `max` iterations state) + 2)%nat
      with (S (S (2 * Z.to_nat (1 `max` iterations state)))) by lia.
    by rewrite run_S, step_START, run_S, Hstep.
Qed.

Lemma model_failure_is_fatal_witness :
  (@llm_generate Stub.provider_error (history_at llm (Stub.initial 3))
     with_tools_default ([] ++ [EvNode llm])).1 = Ok None ∧
  @graph_ainvoke Stub.provider_error (Stub.initial 3) [] =
    Some (Raise llm_failure,
          [EvNode llm; EvModel true [SystemMessage "sys"; HumanMessage "hello"]]).
Proof.
  assert ((@llm_generate Stub.provider_error (history_at llm (Stub.initial 3))
             with_tools_default ([] ++ [EvNode llm])).1 = Ok None) as Hnone
    by (vm_compute; reflexivity).
  split; [exact Hnone|].
  exact (proj2 (proj2 (proj2
    (@model_failure_is_fatal Stub.provider_error llm (Stub.initial 3) []
       (or_introl eq_refl) Hnone))) eq_refl).
Defined.

(** C6, as stated, fails.  An assistant message with two tool calls, both
    of tools of the catalog, the second without identifier: both tools are
    invoked, and the step of [call_api] ends with the error of the
    [ToolMessage] that cannot be made; no tool message is appended, the one
    of the first call included.  The same with a call of an unknown tool in
    second place, which is not invoked (C4). *)
Lemma tool_calls_can_stay_unanswered :
  (∃ w',
     step (@get_graph Stub.plain) call_api
       (Stub.after_turn [Stub.good_read; Faulty.anonymous Stub.good_read]) []
     = (Raise missing_tool_call_id, w') ∧
     count is_tool_call w' = 2%nat) ∧
  (∃ w',
     step (@get_graph Stub.plain) call_api
       (Stub.after_turn [Stub.good_read; Stub.unknown_call]) []
     = (Raise (Exn NotImplementedError
                 "Function frobnicate is not implemented"), w') ∧
     count is_tool_call w' = 1%nat).
Proof. split; eexists; split; vm_compute; reflexivity. Qed.

(** C6, amended.  For an assistant message with k tool calls that name
    tools of the catalog and carry identifiers, the step of [call_api]
    returns and appends exactly k tool messages, in the order of the calls,
    each with the identifier and the name of the call it answers.  No model
    is invoked while it runs, and the next step is a model invocation whose
    history holds all k of them. *)
Theorem tool_results_answer_calls_in_order {E : Externals}
    (state : ChatBotState) (prefix : list Message) (c : string)
    (tcs : list ToolCall) (w : log) :
  messages state = prefix ++ [AIMessage c tcs] →
  Forall (λ tc, tc_name tc ∈ catalog_names) tcs →
  Forall (λ tc, is_Some (tc_id tc)) tcs →
  ∃ n' state' w' results dt,
    step get_graph call_api state w = (Ok (n', state'), w') ∧
    messages state' =
      prefix ++ [AIMessage c (with_token (token state) <$> tcs)] ++ results ∧
    length results = length tcs ∧
    Forall2 (λ tc m, ∃ text,
               m = ToolMessage ("Function result is: " +:+ text)
                     (tc_id tc) (tc_name tc))
      tcs results ∧
    w' = (w ++ [EvNode call_api]) ++ dt ∧ model_calls dt = 0%nat ∧
    (n' = llm ∨ n' = limit_llm_request) ∧
    (step get_graph n' state' w').2 =
      w' ++ [EvNode n'; EvModel with_tools_default (history_at n' state')].
Proof.
  intros Hm Hknown Hids.
  destruct (for_each_call_tool_known (token state) tcs (w ++ [EvNode call_api])
              Hknown Hids) as (called & w' & Hloop).
  pose proof (call_task_manager_api_eq state prefix c tcs (w ++ [EvNode call_api]) Hm)
    as Hcall.
  destruct (call_task_manager_api_tool_events state (w ++ [EvNode call_api]))
    as (dt & Hdt & Htool).
  rewrite Hloop in Hcall. rewrite Hcall in Hdt. simpl in Hdt.
  pose proof (for_each_call_tool_Ok _ _ _ _ _ Hloop) as Hans.
  destruct (answers_messages _ _ _ Hans) as [Hcalls Hres].
  eexists _, _, w', called.*2, dt. split_and!.
  - by rewrite step_call_api, Hcall.
  - simpl. unfold add_messages. by rewrite Hcalls, <- app_assoc.
  - rewrite length_fmap. symmetry. by eapply Forall2_length.
  - exact Hres.
  - exact Hdt.
  - by apply (count_tool_events _ dt tool_event_not_model).
  - case_bool_decide; auto.
  - apply step_model_log. case_bool_decide; auto.
Qed.

Lemma tool_results_answer_calls_in_order_witness :
  messages (Stub.after_turn [Stub.bad_update; Stub.good_read]) =
    [SystemMessage "sys"; HumanMessage "hello"]
      ++ [AIMessage "checking" [Stub.bad_update; Stub.good_read]] ∧
  Forall (λ tc, tc_name tc ∈ catalog_names) [Stub.bad_update; Stub.good_read] ∧
  Forall (λ tc, is_Some (tc_id tc)) [Stub.bad_update; Stub.good_read] ∧
  ∃ n' state' w',
    step (@get_graph Stub.plain) call_api
      (Stub.after_turn [Stub.bad_update; Stub.good_read]) []
      = (Ok (n', state'), w') ∧
    (length (messages state') = 5)%nat.
Proof.
  assert (Forall (λ tc, tc_name tc ∈ catalog_names)
            [Stub.bad_update; Stub.good_read]) as Hknown.
  { repeat constructor. }
  assert (Forall (λ tc, is_Some (tc_id tc))
            [Stub.bad_update; Stub.good_read]) as Hids.
  { repeat constructor; by eexists. }
  split; [reflexivity|]. split; [exact Hknown|]. split; [exact Hids|].
  destruct (@tool_results_answer_calls_in_order Stub.plain
              (Stub.after_turn [Stub.bad_update; Stub.good_read])
              [SystemMessage "sys"; HumanMessage "hello"] "checking"
              [Stub.bad_update; Stub.good_read] [] eq_refl Hknown Hids)
    as (n' & state' & w' & results & dt & Hstep & Hmsgs & Hlen & _).
  exists n', state', w'. split; [exact Hstep|].
  rewrite Hmsgs, !length_app, Hlen. reflexivity.
Defined.

(** C7.  The iteration counter goes down by exactly one in a step of the
    node [llm] ([call_llm_with_tools]) and is left alone by every other
    step.  The limit check compares it with [<= 0]; it sits on the edge out
    of [call_api] only, where it sees the state that already holds the tool
    results of the turn.  The entry edge and the edge out of [llm] do not
    look at the counter. *)
Theorem iteration_counter_discipline {E : Externals}
    (n : node) (state : ChatBotState) (w : log)
    (n' : node) (state' : ChatBotState) (w' : log) :
  step get_graph n state w = (Ok (n', state'), w') →
  iterations state' =
    (if bool_decide (n = llm) then iterations state - 1 else iterations state) ∧
  check_gemini_limit_request state' =
    Ok (if bool_decide (iterations state' ≤ 0) then "limit_llm_request" else "llm") ∧
  (∀ m path_map,
     edges get_graph m = Some (ConditionalEdges check_gemini_limit_request path_map) →
     m = call_api) ∧
  match n with
  | START => n' = llm ∧ state' = state ∧ w' = w
  | llm =>
      ∃ r, messages state' = messages state ++ [r] ∧
           n' = (if requests_tools r then call_api else END)
  | call_api =>
      ∃ tcs history results,
        tool_calls <$> last (messages state) = Some (Some tcs) ∧
        messages state' = history ++ results ∧
        length history = length (messages state) ∧
        Forall2 (λ tc m, ∃ text, m = tool_message tc text) tcs results ∧
        n' = (if bool_decide (iterations state' ≤ 0)
              then limit_llm_request else llm)
  | limit_llm_request => n' = END
  | END => n' = END
  end.
Proof.
  intros Hstep. split_and!.
  - destruct n; simpl.
    + by injection Hstep as _ <- _.
    + rewrite step_llm in Hstep.
      destruct (llm_generate _ _ _) as [[[r|]|e] w1]; try done.
      by injection Hstep as _ <- _.
    + rewrite step_call_api in Hstep.
      destruct (call_task_manager_api _ _) as [[out|e] w1] eqn:Hcall; [|done].
      destruct (call_task_manager_api_iterations _ _ _ _ Hcall) as [Hit Hupd].
      injection Hstep as _ <- _. simpl. by rewrite Hupd, Hit.
    + rewrite step_limit_llm_request in Hstep.
      destruct (llm_generate _ _ _) as [[[r|]|e] w1]; try done.
      by injection Hstep as _ <- _.
    + by injection Hstep as _ <- _.
  - unfold check_gemini_limit_request. by case_bool_decide.
  - apply limit_check_only_after_call_api.
  - destruct n.
    + by injection Hstep as <- <- <-.
    + rewrite step_llm in Hstep.
      destruct (llm_generate _ _ _) as [[[r|]|e] w1]; try done.
      injection Hstep as <- <- _. by exists r.
    + rewrite step_call_api in Hstep.
      destruct (call_task_manager_api _ _) as [[out|e] w1] eqn:Hcall; [|done].
      destruct (call_task_manager_api_Ok _ _ _ _ Hcall)
        as (m & tcs & called & Hlast & Htcs & Hloop & ->).
      apply for_each_call_tool_Ok, answers_messages in Hloop as [_ Hres].
      injection Hstep as <- <- _.
      exists tcs, (messages (with_last_tool_calls state called.*1)), called.*2.
      split_and!; try done.
      * by rewrite Hlast, <- Htcs.
      * apply with_last_tool_calls_length.
    + rewrite step_limit_llm_request in Hstep.
      destruct (llm_generate _ _ _) as [[[r|]|e] w1]; try done.
      by injection Hstep as <- _ _.
    + by injection Hstep as <- _ _.
Qed.

Lemma iteration_counter_discipline_witness :
  step (@get_graph Stub.scenario_C) llm (Stub.initial 1) []
    = (Ok (call_api,
           apply_update (Stub.initial 1)
             (mkUpdate [AIMessage "checking" [Stub.call "read_task" [("task_id", VInt 3)] "c1"]]
                (Some 0))),
       [EvNode llm; EvModel true (messages (Stub.initial 1))]) ∧
  iterations
    (apply_update (Stub.initial 1)
       (mkUpdate [AIMessage "checking" [Stub.call "read_task" [("task_id", VInt 3)] "c1"]]
          (Some 0))) = 1 - 1.
Proof.
  assert (step (@get_graph Stub.scenario_C) llm (Stub.initial 1) []
    = (Ok (call_api,
           apply_update (Stub.initial 1)
             (mkUpdate [AIMessage "checking" [Stub.call "read_task" [("task_id", VInt 3)] "c1"]]
                (Some 0))),
       [EvNode llm; EvModel true (messages (Stub.initial 1))])) as Hstep
    by (vm_compute; reflexivity).
  split; [exact Hstep|].
  exact (proj1 (@iteration_counter_discipline Stub.scenario_C _ _ _ _ _ _ Hstep)).
Defined.

(** C8.  Two runs that reach the tool step in states differing only in what
    the model wrote under ["token"] in the arguments of its tool calls (in
    one, the other, both or neither) are the same from there on: the node
    makes the same tool invocations with the same arguments, gets the same
    results and leaves the same state and log.  Every tool invocation of the
    turn carries the token of the state under ["token"]. *)
Theorem credential_overrides_model_token {E : Externals}
    (prefix : list Message) (c : string) (tcs1 tcs2 : list ToolCall)
    (budget : Z) (resp : option string) (tok : string) (w : log) :
  Forall2 same_but_token tcs1 tcs2 →
  let state1 := mkState (prefix ++ [AIMessage c tcs1]) budget resp tok in
  let state2 := mkState (prefix ++ [AIMessage c tcs2]) budget resp tok in
  call_task_manager_api state1 w = call_task_manager_api state2 w ∧
  step get_graph call_api state1 w = step get_graph call_api state2 w ∧
  ∃ d, (call_task_manager_api state1 w).2 = w ++ d ∧
       Forall (λ ev, match ev with
                     | EvTool _ tool_input =>
                         tool_input !! "token" = Some (VStr tok)
                     | _ => True
                     end) d.
Proof.
  intros Hsame state1 state2.
  assert (∀ w0, for_each (call_tool tok) tcs1 w0 = for_each (call_tool tok) tcs2 w0)
    as Hloop.
  { induction Hsame as [|tc1 tc2 tcs1 tcs2 Htc _ IH]; intros w0; [done|].
    rewrite !for_each_cons, (call_tool_same_but_token tok tc1 tc2 Htc).
    destruct (call_tool tok tc2 w0) as [[out|e] w1]; [|done]. by rewrite IH. }
  assert (∀ w0, call_task_manager_api state1 w0 = call_task_manager_api state2 w0)
    as Hnode.
  { intros w0.
    rewrite (call_task_manager_api_eq state1 prefix c tcs1 w0 eq_refl).
    rewrite (call_task_manager_api_eq state2 prefix c tcs2 w0 eq_refl).
    by rewrite Hloop. }
  split_and!.
  - apply Hnode.
  - by rewrite !step_call_api, Hnode.
  - destruct (emits_call_task_manager_api state1 w) as (d & Hd & Htok).
    exists d. split; [done|]. eapply Forall_impl; [exact Htok|].
    intros ev. by destruct ev.
Qed.

Lemma credential_overrides_model_token_witness :
  Forall2 same_but_token [Stub.forged_read] [Stub.good_read] ∧
  @call_task_manager_api Stub.plain (Stub.after_turn [Stub.forged_read]) []
  = @call_task_manager_api Stub.plain (Stub.after_turn [Stub.good_read]) [].
Proof.
  assert (Forall2 same_but_token [Stub.forged_read] [Stub.good_read]) as Hsame.
  { repeat constructor. }
  split; [exact Hsame|].
  exact (proj1 (@credential_overrides_model_token Stub.plain
                  [SystemMessage "sys"; HumanMessage "hello"] "checking"
                  [Stub.forged_read] [Stub.good_read] 2 None "tok" [] Hsame)).
Defined.

(** C9.  When every entry of [updated_fields] is a known field name, the
    PATCH request of [update_task] carries a body whose keys are exactly the
    listed names, each with the value passed for it; a field that is not
    listed has no entry, whatever was passed for it ([completed] and its
    default [False] included).  The same holds for [update_collection] and
    its one field. *)
Theorem update_forwards_exactly_listed_fields {E : Externals}
    (fs fs' : list string)
    (task_id token title description completed deadline collection_id : value)
    (cid ctoken name : value) (w : log) :
  Forall (λ f, f ∈ task_fields) fs →
  Forall (λ f, f ∈ collection_fields) fs' →
  (∃ body,
     update_task task_id (VList (VStr <$> fs)) token title description
       completed deadline collection_id w
     = send (mkRequest PATCH
               (TASK_MANAGER_BASE_URL +:+ "tasks/" +:+ py_str task_id +:+ "/update")
               (Some body) None (auth_headers token)) w ∧
     dom body = list_to_set fs ∧
     body !! "title" = forwarded fs "title" title ∧
     body !! "description" = forwarded fs "description" description ∧
     body !! "completed" = forwarded fs "completed" completed ∧
     body !! "deadline" = forwarded fs "deadline" deadline ∧
     body !! "collection_id" = forwarded fs "collection_id" collection_id) ∧
  (∃ body,
     update_collection cid (VList (VStr <$> fs')) ctoken name w
     = send (mkRequest PATCH
               (TASK_MANAGER_BASE_URL +:+ "collections/" +:+ py_str cid
                  +:+ "/update")
               (Some body) None (auth_headers ctoken)) w ∧
     dom body = list_to_set fs' ∧
     body !! "name" = forwarded fs' "name" name).
Proof.
  intros Htask Hcoll. split.
  - destruct (select_fields_listed _ task_fields fs
                (task_data_dom title description completed deadline collection_id)
                Htask) as (body & Hsel & Hdom & Hlook).
    exists body. split_and!; [|done|exact (Hlook _)..].
    unfold update_task. unfold bind at 1. unfold lift. by rewrite Hsel.
  - destruct (select_fields_listed _ collection_fields fs'
                (collection_data_dom name) Hcoll) as (body & Hsel & Hdom & Hlook).
    exists body. split_and!; [|done|exact (Hlook _)].
    unfold update_collection. unfold bind at 1. unfold lift. by rewrite Hsel.
Qed.

Lemma update_forwards_exactly_listed_fields_witness :
  Forall (λ f, f ∈ task_fields) ["title"; "deadline"] ∧
  Forall (λ f, f ∈ collection_fields) ["name"] ∧
  ∃ body,
    @update_task Stub.plain (VInt 3) (VList [VStr "title"; VStr "deadline"])
      (VStr "tok") (VStr "Sweep") VNone (VBool false) (VStr "2025-03-19") VNone []
    = @send Stub.plain
        (mkRequest PATCH "http://tm/tasks/<value>/update" (Some body) None
           (@auth_headers Stub.plain (VStr "tok"))) [] ∧
    body !! "title" = Some (VStr "Sweep") ∧
    body !! "completed" = None.
Proof.
  assert (Forall (λ f, f ∈ task_fields) ["title"; "deadline"]) as Htask
    by repeat constructor.
  assert (Forall (λ f, f ∈ collection_fields) ["name"]) as Hcoll
    by repeat constructor.
  split; [exact Htask|]. split; [exact Hcoll|].
  destruct (@update_forwards_exactly_listed_fields Stub.plain
              ["title"; "deadline"] ["name"]
              (VInt 3) (VStr "tok") (VStr "Sweep") VNone (VBool false)
              (VStr "2025-03-19") VNone (VInt 1) (VStr "tok") (VStr "Home") []
              Htask Hcoll)
    as [(body & Hreq & _ & Htitle & _ & Hcompleted & _) _].
  exists body. split; [exact Hreq|]. split; [exact Htitle|exact Hcompleted].
Defined.

(** C10, as stated, fails for a call without identifier.  The [KeyError]
    of the field filter is raised before any request and is caught in
    [call_task_manager_api]; the [ToolMessage] that is to carry its text is
    made after the [try] statement and does not validate, so the node and
    the run end with that error and no tool result. *)
Lemma unknown_update_field_can_end_the_run :
  ∃ w',
    @ainvoke Stub.plain (@update_task_tool Stub.plain)
      (<["token" := VStr "tok"]> (tc_args (Faulty.anonymous Stub.bad_update)))
      [EvNode call_api] = (Raise (Exn KeyError "priority"), w') ∧
    count is_request w' = 0%nat ∧
    @call_task_manager_api Stub.plain
      (Stub.after_turn [Faulty.anonymous Stub.bad_update]) [EvNode call_api]
    = (Raise missing_tool_call_id, w') ∧
    run (@get_graph Stub.plain) 3 call_api
      (Stub.after_turn [Faulty.anonymous Stub.bad_update]) []
    = Some (Raise missing_tool_call_id, w').
Proof. eexists. split_and!; vm_compute; reflexivity. Qed.

(** C10, amended.  A call to [update_task] (to [update_collection]) whose
    [updated_fields] holds a name outside the five (the one) known field
    names raises [KeyError], for the first such name, out of the field
    filter: the log is unchanged, no request has left.  Reached through the
    loop of [call_task_manager_api], with keyword arguments that bind to the
    tool's parameters and for a call that carries an identifier, the
    exception is caught: the loop body returns the tool message whose text
    is [str] of the [KeyError], and the only event of the call is the tool
    invocation itself.  When the other calls of the turn name tools of the
    catalog and carry identifiers, the node returns with that message in
    the place of the call among the results, and the step appends them and
    goes on to [llm] or to [limit_llm_request]. *)
Theorem unknown_update_field_becomes_tool_result {E : Externals}
    (name id_param : string) (known params : list string)
    (state : ChatBotState) (prefix : list Message) (c : string)
    (tcs1 : list ToolCall) (tc : ToolCall) (tcs2 : list ToolCall)
    (tok : string) (kw : gmap string value)
    (fs : list string) (f : string) (w : log) :
  updater name id_param known params →
  tc_name tc = name →
  is_Some (tc_id tc) →
  validate name (<["token" := VStr tok]> (tc_args tc)) = Ok kw →
  dom kw ⊆ list_to_set params →
  is_Some (kw !! id_param) →
  is_Some (kw !! "token") →
  kw !! "updated_fields" = Some (VList (VStr <$> fs)) →
  f ∈ fs →
  f ∉ known →
  token state = tok →
  messages state = prefix ++ [AIMessage c (tcs1 ++ tc :: tcs2)] →
  Forall (λ tc, tc_name tc ∈ catalog_names) (tcs1 ++ tcs2) →
  Forall (λ tc, is_Some (tc_id tc)) (tcs1 ++ tcs2) →
  ∃ f0 t,
    first_unknown known fs = Some f0 ∧ f0 ∈ fs ∧ (f0 ∉ known) ∧
    (∀ task_id token title description completed deadline collection_id w0,
       known = task_fields →
       update_task task_id (VList (VStr <$> fs)) token title description
         completed deadline collection_id w0
       = (Raise (Exn KeyError f0), w0)) ∧
    (∀ collection_id token cname w0,
       known = collection_fields →
       update_collection collection_id (VList (VStr <$> fs)) token cname w0
       = (Raise (Exn KeyError f0), w0)) ∧
    get_function_by_name name = Ok t ∧
    (∀ w0, coroutine t kw w0 = (Raise (Exn KeyError f0), w0)) ∧
    (∀ w0,
       call_tool tok tc w0 =
         (Ok (with_token tok tc, tool_message tc (str_exn (Exn KeyError f0))),
          w0 ++ [EvTool name (<["token" := VStr tok]> (tc_args tc))])) ∧
    ∃ called1 w1 called2 w' out n' state',
      for_each (call_tool tok) tcs1 (w ++ [EvNode call_api]) = (Ok called1, w1) ∧
      for_each (call_tool tok) tcs2
        (w1 ++ [EvTool name (<["token" := VStr tok]> (tc_args tc))])
      = (Ok called2, w') ∧
      call_task_manager_api state (w ++ [EvNode call_api]) = (Ok out, w') ∧
      upd_messages out.2 =
        called1.*2 ++ [tool_message tc (str_exn (Exn KeyError f0))]
          ++ called2.*2 ∧
      step get_graph call_api state w = (Ok (n', state'), w') ∧
      (n' = llm ∨ n' = limit_llm_request) ∧
      messages state' =
        prefix
          ++ [AIMessage c (with_token tok <$> (tcs1 ++ tc :: tcs2))]
          ++ called1.*2 ++ [tool_message tc (str_exn (Exn KeyError f0))]
          ++ called2.*2.
Proof.
  intros Hupd Hname Hsome Hval Hdom [id Hid] [token Htoken] Hfields Hin Hnot
    Htok Hm [Hknown1 Hknown2]%Forall_app [Hids1 Hids2]%Forall_app.
  destruct (first_unknown_exists known fs f Hin Hnot) as [f0 Hfirst].
  destruct (first_unknown_Some _ _ _ Hfirst) as [Hin0 Hnot0].
  assert (∀ task_id token title description completed deadline collection_id w0,
            known = task_fields →
            update_task task_id (VList (VStr <$> fs)) token title description
              completed deadline collection_id w0
            = (Raise (Exn KeyError f0), w0)) as Htask.
  { intros ???????? ->. unfold update_task. unfold bind at 1. unfold lift.
    by rewrite (select_fields_first_unknown _ task_fields fs f0
                  (task_data_dom _ _ _ _ _) Hfirst). }
  assert (∀ collection_id token cname w0,
            known = collection_fields →
            update_collection collection_id (VList (VStr <$> fs)) token cname w0
            = (Raise (Exn KeyError f0), w0)) as Hcoll.
  { intros ???? ->. unfold update_collection. unfold bind at 1. unfold lift.
    by rewrite (select_fields_first_unknown _ collection_fields fs f0
                  (collection_data_dom _) Hfirst). }
  assert (∃ t, get_function_by_name name = Ok t ∧ tool_name t = name ∧
               ∀ w0, coroutine t kw w0 = (Raise (Exn KeyError f0), w0))
    as (t & Hget & Htname & Hco).
  { destruct Hupd; [exists update_task_tool|exists update_collection_tool];
      (split; [reflexivity|]); (split; [reflexivity|]);
      intros w0; cbn [coroutine update_task_tool update_collection_tool tool];
      unfold check_keywords, required; unfold_monad;
      rewrite (bool_decide_eq_true_2 _ Hdom), Hid, Hfields, Htoken.
    - by apply Htask.
    - by apply Hcoll. }
  assert (∀ w0,
            call_tool tok tc w0 =
              (Ok (with_token tok tc, tool_message tc (str_exn (Exn KeyError f0))),
               w0 ++ [EvTool name (<["token" := VStr tok]> (tc_args tc))]))
    as Hcall.
  { intros w0. rewrite (call_tool_resolved tok tc t w0) by (by rewrite ?Hname).
    unfold ainvoke. unfold_monad. by rewrite Htname, Hval, Hco. }
  exists f0, t. split_and!; try done.
  destruct (for_each_call_tool_known tok tcs1 (w ++ [EvNode call_api])
              Hknown1 Hids1) as (called1 & w1 & Hloop1).
  destruct (for_each_call_tool_known tok tcs2
              (w1 ++ [EvTool name (<["token" := VStr tok]> (tc_args tc))])
              Hknown2 Hids2) as (called2 & w' & Hloop2).
  assert (for_each (call_tool tok) (tcs1 ++ tc :: tcs2) (w ++ [EvNode call_api])
          = (Ok (called1
                   ++ (with_token tok tc,
                       tool_message tc (str_exn (Exn KeyError f0)))
                   :: called2), w')) as Hloop.
  { by rewrite for_each_app, Hloop1, for_each_cons, Hcall, Hloop2. }
  destruct (answers_messages _ _ _ (for_each_call_tool_Ok _ _ _ _ _ Hloop))
    as [Hcalls _].
  pose proof (call_task_manager_api_eq _ _ _ _ (w ++ [EvNode call_api]) Hm)
    as Hnode.
  rewrite Htok, Hloop in Hnode.
  exists called1, w1, called2, w'. eexists _, _, _. split_and!.
  - exact Hloop1.
  - exact Hloop2.
  - exact Hnode.
  - simpl. by rewrite !fmap_app, !fmap_cons.
  - by rewrite step_call_api, Hnode.
  - case_bool_decide; auto.
  - simpl. unfold add_messages.
    by rewrite Hcalls, !fmap_app, !fmap_cons, <- !app_assoc.
Qed.

Lemma unknown_update_field_becomes_tool_result_witness :
  "priority" ∈ ["priority"] ∧ ("priority" ∉ task_fields) ∧
  @call_tool Stub.plain "tok" Stub.bad_update [] =
    (Ok (with_token "tok" Stub.bad_update,
         ToolMessage "Function result is: priority" (Some "c1") "update_task"),
     [EvTool "update_task" (<["token" := VStr "tok"]> (tc_args Stub.bad_update))]) ∧
  ∃ n' state' w',
    step (@get_graph Stub.plain) call_api
      (Stub.after_turn [Stub.good_read; Stub.bad_update]) []
    = (Ok (n', state'), w') ∧
    messages state' !! 4%nat =
      Some (ToolMessage "Function result is: priority" (Some "c1") "update_task").
Proof.
  assert ("priority" ∈ ["priority"]) as Hin by constructor.
  assert ("priority" ∉ task_fields) as Hnot.
  { apply (bool_decide_unpack _). vm_compute. exact I. }
  assert (dom (<["token" := VStr "tok"]> (tc_args Stub.bad_update))
          ⊆ list_to_set (C := gset string)
              ["task_id"; "updated_fields"; "token"; "title"; "description";
               "completed"; "deadline"; "collection_id"]) as Hdom.
  { apply (bool_decide_unpack _). vm_compute. exact I. }
  assert (Forall (λ tc, tc_name tc ∈ catalog_names) ([Stub.good_read] ++ []))
    as Hknown by repeat constructor.
  assert (Forall (λ tc, is_Some (tc_id tc)) ([Stub.good_read] ++ [])) as Hids
    by (repeat constructor; by eexists).
  split; [exact Hin|]. split; [exact Hnot|].
  destruct (@unknown_update_field_becomes_tool_result Stub.plain
              "update_task" "task_id" task_fields _
              (Stub.after_turn [Stub.good_read; Stub.bad_update])
              [SystemMessage "sys"; HumanMessage "hello"] "checking"
              [Stub.good_read] Stub.bad_update [] "tok"
              (<["token" := VStr "tok"]> (tc_args Stub.bad_update))
              ["priority"] "priority" []
              updater_task eq_refl (ex_intro _ "c1" eq_refl) eq_refl Hdom
              (ex_intro _ (VInt 3) eq_refl) (ex_intro _ (VStr "tok") eq_refl)
              eq_refl Hin Hnot eq_refl eq_refl Hknown Hids)
    as (f0 & t & Hfirst & _ & _ & _ & _ & _ & _ & Hcall
        & called1 & w1 & called2 & w' & out & n' & state'
        & Hloop1 & Hloop2 & _ & _ & Hstep & _ & Hmsgs).
  injection Hfirst as <-. split; [exact (Hcall [])|].
  exists n', state', w'. split; [exact Hstep|].
  assert (length called1.*2 = 1%nat) as Hlen.
  { rewrite length_fmap.
    symmetry. exact (Forall2_length _ _ _
                       (for_each_call_tool_Ok _ _ _ _ _ Hloop1)). }
  rewrite Hmsgs. destruct called1.*2 as [|m1 [|m2 l]]; try done.
Defined.

(** * Further properties of the code *)

Section further.
Context {E : Externals}.

(** ** Runs, step by step *)

(** Induction over the steps of a run that has ended. *)
Lemma run_ind_steps (g : StateGraph)
    (P : node → ChatBotState → log → result ChatBotState → log → Prop) :
  (∀ state w, P END state w (Ok state) w) →
  (∀ n state w e w',
     n ≠ END → step g n state w = (Raise e, w') → P n state w (Raise e) w') →
  (∀ n state w n' state' w1 r w',
     n ≠ END → step g n state w = (Ok (n', state'), w1) →
     P n' state' w1 r w' → P n state w r w') →
  ∀ fuel n state w r w',
    run g fuel n state w = Some (r, w') → P n state w r w'.
Proof.
  intros Hend Hraise Hstep fuel.
  induction fuel as [|fuel IH]; intros n state w r w' Hrun.
  - destruct n; try done. injection Hrun as <- <-. apply Hend.
  - destruct (decide (n = END)) as [->|Hn].
    + rewrite run_END in Hrun. injection Hrun as <- <-. apply Hend.
    + rewrite run_S in Hrun by done.
      destruct (step g n state w) as [[[n' state']|e] w1] eqn:Hs.
      * eapply Hstep; [done|exact Hs|]. by apply IH.
      * injection Hrun as <- <-. by apply Hraise.
Qed.

(** The events of one step: the tools are invoked with the token of the
    state, and the node that ran is the only one logged. *)
Lemma step_events n state w :
  ∃ d, (step get_graph n state w).2 = w ++ d ∧
       Forall (with_credential (token state)) d ∧
       trace d = (if bool_decide (n = START ∨ n = END) then [] else [n]).
Proof.
  destruct n.
  - exists []. rewrite step_START, app_nil_r. done.
  - exists [EvNode llm; EvModel with_tools_default (history_at llm state)].
    rewrite step_model_log by auto. split_and!; [done| |done].
    by repeat constructor.
  - rewrite step_call_api.
    destruct (emits_call_task_manager_api state (w ++ [EvNode call_api]))
      as (dt & Hdt & Htok).
    exists (EvNode call_api :: dt). split_and!.
    + destruct (call_task_manager_api _ _) as [[out|e] w1]; simpl in *; subst;
        by rewrite <- app_assoc.
    + constructor; [done|]. eapply Forall_impl; [exact Htok|].
      intros ev. by destruct ev.
    + simpl. unfold trace. apply (f_equal (cons call_api)).
      clear Hdt. induction Htok as [|ev dt Hev _ IH]; [done|].
      destruct ev; simpl in *; try done.
  - exists [EvNode limit_llm_request;
            EvModel with_tools_default (history_at limit_llm_request state)].
    rewrite step_model_log by auto. split_and!; [done| |done].
    by repeat constructor.
  - exists []. by rewrite app_nil_r.
Qed.

Lemma trace_app d1 d2 : trace (d1 ++ d2) = trace d1 ++ trace d2.
Proof. apply omap_app. Qed.

Lemma step_END state w : step get_graph END state w = (Ok (END, state), w).
Proof. reflexivity. Qed.

(** A step leaves the token alone. *)
Lemma step_token n state w n' state' w' :
  step get_graph n state w = (Ok (n', state'), w') → token state' = token state.
Proof.
  destruct n.
  - rewrite step_START. by intros [= _ <- _].
  - rewrite step_llm. destruct (llm_generate _ _ _) as [[[r|]|e] w1]; try done.
    by intros [= _ <- _].
  - rewrite step_call_api.
    destruct (call_task_manager_api _ _) as [[out|e] w1] eqn:Hcall; [|done].
    destruct (call_task_manager_api_Ok _ _ _ _ Hcall)
      as (m & tcs & called & _ & _ & _ & ->).
    by intros [= _ <- _].
  - rewrite step_limit_llm_request.
    destruct (llm_generate _ _ _) as [[[r|]|e] w1]; try done.
    by intros [= _ <- _].
  - rewrite step_END. by intros [= _ <- _].
Qed.

(** Where a step goes. *)
Lemma step_successor n state w n' state' w' :
  step get_graph n state w = (Ok (n', state'), w') →
  n' = END ∨ (n = START ∧ n' = llm) ∨ successor n n'.
Proof.
  unfold successor. destruct n.
  - rewrite step_START. intros [= <- _ _]. naive_solver.
  - rewrite step_llm. destruct (llm_generate _ _ _) as [[[r|]|e] w1]; try done.
    intros [= <- _ _]. destruct (requests_tools r); naive_solver.
  - rewrite step_call_api.
    destruct (call_task_manager_api _ _) as [[out|e] w1]; [|done].
    intros [= <- _ _]. case_bool_decide; naive_solver.
  - rewrite step_limit_llm_request.
    destruct (llm_generate _ _ _) as [[[r|]|e] w1]; try done.
    intros [= <- _ _]. naive_solver.
  - rewrite step_END. intros [= <- _ _]. naive_solver.
Qed.

(** The events of a run: the credential in every tool invocation, the token
    at the end, and the nodes as a walk through the graph. *)
Lemma run_events fuel n state w r w' :
  run get_graph fuel n state w = Some (r, w') →
  ∃ d, w' = w ++ d ∧
       Forall (with_credential (token state)) d ∧
       (∀ state', r = Ok state' → token state' = token state) ∧
       match n with
       | START => r = r
       | END => trace d = []
       | _ => ∃ rest, trace d = n :: rest ∧ route n rest
       end ∧
       (n = START → ∃ rest, trace d = llm :: rest ∧ route llm rest).
Proof.
  revert fuel n state w r w'. apply run_ind_steps.
  - intros state w. exists []. rewrite app_nil_r. split_and!; try done.
    by intros state' [= ->].
  - intros n state w e w' Hn Hs.
    destruct (step_events n state w) as (d & Hd & Htok & Htr).
    rewrite Hs in Hd. simpl in Hd. exists d. split_and!; try done.
    + destruct n; try done; rewrite Htr; simpl; by exists [].
    + intros ->. by rewrite step_START in Hs.
  - intros n state w n' state' w1 r w' Hn Hs (d' & -> & Htok' & Hfinal & Hroute & Hstart).
    destruct (step_events n state w) as (d & Hd & Htok & Htr).
    rewrite Hs in Hd. simpl in Hd. subst w1.
    pose proof (step_token _ _ _ _ _ _ Hs) as Htoken.
    pose proof (step_successor _ _ _ _ _ _ Hs) as Hsucc.
    exists (d ++ d'). rewrite app_assoc. split_and!; try done.
    + apply Forall_app. split; [done|]. by rewrite <- Htoken.
    + intros state'' Hr. rewrite <- Htoken. by apply Hfinal.
    + assert (n' = END ∧ trace d' = [] ∨
              ∃ rest, trace d' = n' :: rest ∧ route n' rest ∧ n' ≠ END ∧ n' ≠ START)
        as Hnext.
      { destruct n'; auto.
        - exfalso. unfold successor in Hsucc.
          destruct Hsucc as [?|[[_ ?]|[[_ ?]|[[_ ?]|[_ ?]]]]]; done.
        - destruct Hroute as (rest & ? & ?). right. by exists rest.
        - destruct Hroute as (rest & ? & ?). right. by exists rest.
        - destruct Hroute as (rest & ? & ?). right. by exists rest. }
      destruct n; try done; rewrite trace_app, Htr; simpl.
      all: destruct Hnext as [[-> ->]|(rest & -> & Hp & Hne & Hns)];
        [by exists []|].
      all: exists (n' :: rest); split; [done|]; split; [|done].
      all: destruct Hsucc as [?|[[? _]|?]]; done.
    + intros ->. rewrite step_START in Hs. injection Hs as <- <- _.
      rewrite trace_app, Htr. simpl. destruct Hroute as (rest & ? & ?). by exists rest.
Qed.


(** A message [llm_generate] returns is what the model returned. *)
Lemma llm_generate_Some msgs with_tools w r w' :
  llm_generate msgs with_tools w = (Ok (Some r), w') →
  model_ainvoke w with_tools msgs = Ok r.
Proof.
  unfold llm_generate, isinstance. unfold_monad.
  destruct (model_ainvoke w with_tools msgs) as [r0|e]; [by intros [= -> _]|].
  by repeat case_bool_decide.
Qed.

Lemma with_last_tool_calls_snoc state (l : list Message) m tcs :
  messages state = l ++ [m] →
  messages (with_last_tool_calls state tcs) = l ++ [with_tool_calls m tcs].
Proof.
  intros Hm. unfold with_last_tool_calls. simpl.
  by rewrite Hm, last_snoc, removelast_last.
Qed.

(** The history at the end of a run that returned: what was there at the
    start (up to the arguments of tool calls in messages that came after
    [init]), and a last message that the model returned and that asks for
    no tool or answers the limit prompt. *)
Lemma run_final fuel n state w r w' :
  run get_graph fuel n state w = Some (r, w') →
  (n = END → r = Ok state) ∧
  (n ≠ END →
   ∀ state' init tail,
     r = Ok state' →
     messages state = init ++ tail →
     tail ≠ [] ∨ n = START ∨ n = llm →
     ∃ rest r0,
       messages state' = init ++ rest ++ [r0] ∧
       (∃ w0 msgs, model_ainvoke w0 true msgs = Ok r0) ∧
       (requests_tools r0 = false ∨
        ∃ pre, messages state' = pre ++ [limit_prompt; r0])).
Proof.
  revert fuel n state w r w'. apply run_ind_steps.
  - intros state w. by split.
  - intros n state w e w' Hn Hs. by split.
  - intros n state w n' state1 w1 r w' Hn Hs [Hend Hgo].
    split; [done|]. intros _ state' init tail -> Hm Htail.
    destruct n; try done.
    + rewrite step_START in Hs. injection Hs as <- <- _.
      apply (Hgo ltac:(done) state' init tail); auto.
    + rewrite step_llm in Hs.
      destruct (llm_generate _ _ _) as [[[r1|]|e] w2] eqn:Hgen; try done.
      injection Hs as <- <- _.
      destruct (requests_tools r1) eqn:Hreq.
      * apply (Hgo ltac:(done) state' init (tail ++ [r1])); auto.
        -- simpl. unfold add_messages. by rewrite Hm, <- app_assoc.
        -- left. by destruct tail.
      * specialize (Hend eq_refl). injection Hend as ->.
        exists tail, r1. split_and!; [|by eexists _, _; eapply llm_generate_Some|by left].
        simpl. unfold add_messages. by rewrite Hm, <- app_assoc.
    + rewrite step_call_api in Hs.
      destruct (call_task_manager_api _ _) as [[out|e] w2] eqn:Hcall; [|done].
      destruct (call_task_manager_api_Ok _ _ _ _ Hcall)
        as (m & tcs & called & Hlast & _ & _ & ->).
      injection Hs as <- <- _.
      destruct Htail as [Htail|[?|?]]; try done.
      destruct (exists_last Htail) as (tail0 & m0 & ->).
      rewrite app_assoc in Hm.
      assert ((if bool_decide (iterations
                 (apply_update (with_last_tool_calls state called.*1)
                    (mkUpdate called.*2 None)) ≤ 0)
               then limit_llm_request else llm) ≠ END) as Hne
        by (by destruct (bool_decide _)).
      apply (Hgo Hne state' init
               (tail0 ++ [with_tool_calls m0 called.*1] ++ called.*2)); auto.
      * unfold apply_update, add_messages. cbn [messages upd_messages fst snd].
        rewrite (with_last_tool_calls_snoc _ _ _ _ Hm).
        by rewrite <- !app_assoc.
      * left. by destruct tail0.
    + rewrite step_limit_llm_request in Hs.
      destruct (llm_generate _ _ _) as [[[r1|]|e] w2] eqn:Hgen; try done.
      injection Hs as <- <- _.
      specialize (Hend eq_refl). injection Hend as ->.
      exists (tail ++ [limit_prompt]), r1. simpl. unfold add_messages.
      split_and!.
      * rewrite Hm, <- !app_assoc. done.
      * eexists _, _. by eapply llm_generate_Some.
      * right. by exists (messages state).
Qed.

(** Every call of the compiled graph returns, also with a budget below one. *)
Lemma graph_ainvoke_returns state w :
  ∃ r d, graph_ainvoke state w = Some (r, w ++ d) ∧
         within (Z.to_nat (Z.max 1 (iterations state))) d.
Proof.
  destruct (run_from_llm (Z.to_nat (Z.max 1 (iterations state))) state w)
    as (r & d & Hrun & Hwithin); [done|].
  exists r, d. split; [|done].
  unfold graph_ainvoke, steps_for.
  replace (2 * Z.to_nat (1 `max` iterations state) + 2)%nat
    with (S (2 * Z.to_nat (1 `max` iterations state) + 1)) by lia.
  rewrite run_S, step_START by done. by apply Hrun.
Qed.


(** ** The tools of the catalog *)

(** Each of the ten tools: it raises with the log as it was, or it ends in
    [send] with a request made from its keywords. *)
Lemma tool_shape name t kw w :
  (name, t) ∈ funcs →
  (∃ e, coroutine t kw w = (Raise e, w)) ∨
  (∃ req token,
     coroutine t kw w = send req w ∧
     kw !! "token" = Some token ∧
     req_headers req = auth_headers token ∧
     req_method req = expected_method name ∧
     ∃ url_path, req_url req = TASK_MANAGER_BASE_URL +:+ url_path).
Proof.
  unfold funcs. intros Hin.
  repeat (apply elem_of_cons in Hin as [Hin|Hin]);
    [..|by apply elem_of_nil in Hin].
  all: injection Hin as -> ->;
    cbn [coroutine tool create_task_tool read_task_tool task_list_tool
           update_task_tool delete_task_tool create_collection_tool
           read_collection_tool collection_list_tool update_collection_tool
           delete_collection_tool];
    unfold check_keywords, required, create_task, read_task, task_list,
      update_task, delete_task, create_collection, read_collection,
      collection_list, update_collection, delete_collection;
    unfold bind, lift;
    repeat (case_match; simplify_eq; try (left; eexists; reflexivity)).
  all: right; eexists _, _; split_and!; [reflexivity..|eexists; reflexivity].
Qed.

Lemma funcs_tool_name name t : (name, t) ∈ funcs → tool_name t = name.
Proof.
  unfold funcs. intros Hin.
  repeat (apply elem_of_cons in Hin as [[= -> ->]|Hin]; [reflexivity|]).
  by apply elem_of_nil in Hin.
Qed.

Lemma invocations_app d1 d2 :
  invocations (d1 ++ d2) = invocations d1 ++ invocations d2.
Proof. apply omap_app. Qed.

Lemma call_tool_Ok_resolved tok tc w out w' :
  call_tool tok tc w = (Ok out, w') →
  ∃ t, get_function_by_name (tc_name tc) = Ok t.
Proof.
  unfold call_tool.
  destruct (get_function_by_name (tc_name tc)) as [t|e]; [by exists t|].
  by unfold_monad.
Qed.

(** The loop body for a call with a catalog name: it logs the invocation
    and at most one request, and returns if the call carries an identifier;
    if not, it raises the error of the [ToolMessage]. *)
Lemma call_tool_events tok tc t w :
  get_function_by_name (tc_name tc) = Ok t →
  ∃ r d,
    call_tool tok tc w
    = (r, w ++ EvTool (tc_name tc) (<["token" := VStr tok]> (tc_args tc)) :: d) ∧
    (d = [] ∨ ∃ req, d = [EvRequest req]) ∧
    match r with
    | Ok _ => is_Some (tc_id tc)
    | Raise e => tc_id tc = None ∧ e = missing_tool_call_id
    end.
Proof.
  intros Hget. rewrite (call_tool_answered _ _ _ _ Hget).
  assert (∀ text, match answered tok tc text with
                  | Ok _ => is_Some (tc_id tc)
                  | Raise e => tc_id tc = None ∧ e = missing_tool_call_id
                  end) as Hans.
  { intros text. unfold answered. destruct (tc_id tc); [by eexists|done]. }
  apply get_function_by_name_Ok in Hget.
  unfold ainvoke. rewrite (funcs_tool_name _ _ Hget). unfold_monad.
  destruct (validate _ _) as [kw|e];
    [|eexists _, []; split_and!; [reflexivity|by left|apply Hans]].
  destruct (tool_shape _ t kw
              (w ++ [EvTool (tc_name tc) (<["token" := VStr tok]> (tc_args tc))])
              Hget)
    as [[e ->]|(req & token & -> & _)];
    [eexists _, []; split_and!; [reflexivity|by left|apply Hans]|].
  pose proof (send_log req
                (w ++ [EvTool (tc_name tc) (<["token" := VStr tok]> (tc_args tc))]))
    as Hlog.
  destruct (send req _) as [[v|e] w1]; simpl in Hlog; subst w1;
    rewrite <- app_assoc; eexists _, [EvRequest req];
    (split_and!; [reflexivity|right; by exists req|apply Hans]).
Qed.

(** The loop body raises for an unknown name, before anything is logged,
    and for a call without identifier, after its tool has run. *)
Lemma call_tool_Raise tok tc w e w' :
  call_tool tok tc w = (Raise e, w') →
  ((tc_name tc ∉ catalog_names) ∧
   e = Exn NotImplementedError
         ("Function " +:+ tc_name tc +:+ " is not implemented") ∧
   w' = w) ∨
  (tc_name tc ∈ catalog_names ∧ tc_id tc = None ∧ e = missing_tool_call_id ∧
   ∃ d, w' = w ++ EvTool (tc_name tc) (<["token" := VStr tok]> (tc_args tc)) :: d ∧
        (d = [] ∨ ∃ req, d = [EvRequest req])).
Proof.
  intros Hcall. destruct (decide (tc_name tc ∈ catalog_names)) as [Hin|Hnot].
  - destruct (get_function_by_name_known _ Hin) as (t & Hget & _).
    destruct (call_tool_events tok tc t w Hget) as (r & d & Hout & Hd & Hr).
    rewrite Hout in Hcall. injection Hcall as -> <-.
    destruct Hr as [Hid ->]. right. split_and!; try done. by exists d.
  - rewrite (call_tool_unknown _ _ _ Hnot) in Hcall. injection Hcall as <- <-.
    by left.
Qed.

(** The loop over the calls of a turn, whether it returns or raises: the
    calls [ran] whose tools were invoked, and what they left in the log.
    It raises at the first call that names an unknown tool, which is not
    invoked, or lacks its identifier, which is found after the tool has
    run. *)
Lemma for_each_call_tool_events tok tcs w r w' :
  for_each (call_tool tok) tcs w = (r, w') →
  ∃ ran d,
    w' = w ++ d ∧
    invocations d = invocation tok <$> ran ∧
    (count is_request d ≤ length ran)%nat ∧
    model_calls d = 0%nat ∧ trace d = [] ∧
    Forall (λ tc, tc_name tc ∈ catalog_names) ran ∧
    match r with
    | Ok called => ran = tcs
    | Raise e =>
        (∃ tc rest,
           tcs = ran ++ tc :: rest ∧
           Forall (λ tc, is_Some (tc_id tc)) ran ∧
           (tc_name tc ∉ catalog_names) ∧
           e = Exn NotImplementedError
                 ("Function " +:+ tc_name tc +:+ " is not implemented")) ∨
        (∃ pre tc rest,
           ran = pre ++ [tc] ∧ tcs = ran ++ rest ∧
           Forall (λ tc, is_Some (tc_id tc)) pre ∧
           tc_id tc = None ∧ e = missing_tool_call_id)
    end.
Proof.
  revert w r w'. induction tcs as [|tc tcs IH]; intros w r w'.
  - intros [= <- <-]. exists [], []. rewrite app_nil_r. by split_and!.
  - rewrite for_each_cons.
    destruct (call_tool tok tc w) as [[out|e] w1] eqn:Hcall.
    + destruct (call_tool_Ok_resolved _ _ _ _ _ Hcall) as [t Hget].
      pose proof (call_tool_Ok_id _ _ _ _ _ Hcall) as Hid.
      destruct (call_tool_events tok tc t w Hget) as (r1 & d1 & Hout & Hd1 & _).
      rewrite Hout in Hcall. injection Hcall as -> <-.
      destruct (for_each (call_tool tok) tcs _) as [r2 w2] eqn:Hrest.
      destruct (IH _ _ _ Hrest)
        as (ran & d2 & -> & Hinv & Hreq & Hmod & Htr & Hknown & Hr).
      assert (tc_name tc ∈ catalog_names) as Hin.
      { rewrite <- funcs_names. apply list_elem_of_fmap.
        exists (tc_name tc, t). split; [done|]. by apply get_function_by_name_Ok. }
      intros Heq.
      exists (tc :: ran), ((EvTool (tc_name tc) (<["token" := VStr tok]> (tc_args tc))
                 :: d1) ++ d2).
      unfold model_calls in *.
      rewrite invocations_app, trace_app, !count_app, Hinv, Htr, Hmod.
      split_and!.
      * rewrite <- app_assoc in Heq. destruct r2; by injection Heq as <- <-.
      * by destruct Hd1 as [->|[req ->]].
      * destruct Hd1 as [->|[req ->]]; simpl; lia.
      * by destruct Hd1 as [->|[req ->]].
      * by destruct Hd1 as [->|[req ->]].
      * by constructor.
      * destruct r2 as [called|e]; injection Heq as <- _.
        -- by rewrite Hr.
        -- destruct Hr as [(tc' & rest & -> & Hids & ? & ->)
                          |(pre & tc' & rest & -> & -> & Hids & ? & ->)].
           ++ left. exists tc', rest. split_and!; try done. by constructor.
           ++ right. exists (tc :: pre), tc', rest.
              split_and!; try done. by constructor.
    + intros [= <- <-].
      destruct (call_tool_Raise _ _ _ _ _ Hcall)
        as [(Hnot & -> & ->)|(Hin & Hid & -> & d & -> & Hd)].
      * exists [], []. rewrite app_nil_r. split_and!; try done.
        left. by exists tc, tcs.
      * exists [tc], (EvTool (tc_name tc) (<["token" := VStr tok]> (tc_args tc))
                        :: d).
        split_and!.
        -- reflexivity.
        -- by destruct Hd as [->|[req ->]].
        -- destruct Hd as [->|[req ->]]; simpl; lia.
        -- by destruct Hd as [->|[req ->]].
        -- by destruct Hd as [->|[req ->]].
        -- by apply Forall_singleton.
        -- right. by exists [], tc, tcs.
Qed.

(** ** What holds of every event of a run *)

Lemma step_tool_bound n state w :
  ∃ d, (step get_graph n state w).2 = w ++ d ∧ Forall tool_bound d.
Proof.
  destruct n.
  - exists []. by rewrite step_START, app_nil_r.
  - eexists. rewrite step_model_log by auto. split; [done|]. by repeat constructor.
  - rewrite step_call_api.
    destruct (call_task_manager_api_tool_events state (w ++ [EvNode call_api]))
      as (dt & Hdt & Htool).
    exists (EvNode call_api :: dt). split.
    + destruct (call_task_manager_api _ _) as [[out|e] w1]; simpl in *; subst;
        by rewrite <- app_assoc.
    + constructor; [done|]. eapply Forall_impl; [exact Htool|].
      intros ev. by destruct ev.
  - eexists. rewrite step_model_log by auto. split; [done|]. by repeat constructor.
  - exists []. by rewrite app_nil_r.
Qed.

Lemma run_tool_bound fuel n state w r w' :
  run get_graph fuel n state w = Some (r, w') →
  ∃ d, w' = w ++ d ∧ Forall tool_bound d.
Proof.
  revert fuel n state w r w'. apply run_ind_steps.
  - intros state w. exists []. by rewrite app_nil_r.
  - intros n state w e w' _ Hs.
    destruct (step_tool_bound n state w) as (d & Hd & Hall).
    rewrite Hs in Hd. by exists d.
  - intros n state w n' state' w1 r w' _ Hs (d' & -> & Hall').
    destruct (step_tool_bound n state w) as (d & Hd & Hall).
    rewrite Hs in Hd. simpl in Hd. subst w1.
    exists (d ++ d'). rewrite app_assoc. split; [done|]. by apply Forall_app.
Qed.

(** Counting the runs of a node in a log is counting it in the trace. *)
Lemma node_runs_trace n d : node_runs n d = occurrences n (trace d).
Proof.
  unfold node_runs, occurrences, trace.
  induction d as [|ev d IH]; [done|].
  destruct ev as [n'| | |]; simpl; try done.
  rewrite filter_cons. case_bool_decide; case_decide; simpl; try done.
  by rewrite IH.
Qed.

(** On a walk, [call_api] occurs at most as often as [llm] (once more when
    the walk starts after [llm]). *)
Lemma route_occurrences a l :
  route a l →
  (occurrences call_api l ≤
   occurrences llm l + match a with llm => 1 | _ => 0 end)%nat.
Proof.
  unfold occurrences. revert a. induction l as [|b l IH]; intros a; simpl.
  - intros _. lia.
  - intros [Hsucc Hroute]. specialize (IH b Hroute).
    destruct Hsucc as [[-> ->]|[[-> ->]|[-> ->]]];
      rewrite !filter_cons; repeat case_decide; simpl in *; try done; lia.
Qed.

(** A walk visits the three nodes only. *)
Lemma route_length a l :
  route a l →
  length l = (occurrences llm l + occurrences call_api l
              + occurrences limit_llm_request l)%nat.
Proof.
  unfold occurrences. revert a. induction l as [|b l IH]; intros a; simpl.
  - done.
  - intros [Hsucc Hroute]. rewrite (IH b Hroute).
    destruct Hsucc as [[-> ->]|[[-> ->]|[-> ->]]];
      rewrite !filter_cons; repeat case_decide; simpl in *; try done; lia.
Qed.

(** What is known of every call of the compiled graph. *)
Lemma graph_ainvoke_summary state w :
  ∃ r d rest,
    graph_ainvoke state w = Some (r, w ++ d) ∧
    within (Z.to_nat (Z.max 1 (iterations state))) d ∧
    Forall (with_credential (token state)) d ∧
    Forall tool_bound d ∧
    (∀ state', r = Ok state' → token state' = token state) ∧
    trace d = llm :: rest ∧ route llm rest.
Proof.
  destruct (graph_ainvoke_returns state w) as (r & d & Hrun & Hwithin).
  pose proof Hrun as Hrun'. unfold graph_ainvoke in Hrun'.
  destruct (run_events _ _ _ _ _ _ Hrun')
    as (d1 & Hd1 & Htok & Hfinal & _ & Hstart).
  apply app_inv_head in Hd1 as <-.
  destruct (run_tool_bound _ _ _ _ _ _ Hrun') as (d2 & Hd2 & Hbound).
  apply app_inv_head in Hd2 as <-.
  destruct (Hstart eq_refl) as (rest & Htrace & Hroute).
  by exists r, d, rest.
Qed.

(** A run starts with the model invocation of [llm] on the given history. *)
Lemma graph_ainvoke_head state w r w' :
  graph_ainvoke state w = Some (r, w') →
  ∃ rest,
    w' = w ++ [EvNode llm; EvModel with_tools_default (messages state)] ++ rest.
Proof.
  unfold graph_ainvoke, steps_for.
  replace (2 * Z.to_nat (1 `max` iterations state) + 2)%nat
    with (S (S (2 * Z.to_nat (1 `max` iterations state)))) by lia.
  rewrite run_S, step_START, run_S by done.
  pose proof (step_model_log llm state w (or_introl eq_refl)) as Hlog.
  destruct (step get_graph llm state w) as [[[n' state']|e] w1];
    simpl in Hlog; subst w1.
  - intros Hrun. destruct (run_events _ _ _ _ _ _ Hrun) as (d & -> & _).
    exists d. by rewrite <- app_assoc.
  - intros [= <- <-]. exists []. by rewrite app_nil_r.
Qed.

(** ** The errors of a run *)

(** [call_api] is entered on a message that asks for tools. *)
Lemma step_to_call_api n state w state' w' :
  step get_graph n state w = (Ok (call_api, state'), w') →
  ∃ m, last (messages state') = Some m ∧ requests_tools m = true.
Proof.
  destruct n.
  - by rewrite step_START.
  - rewrite step_llm. destruct (llm_generate _ _ _) as [[[r|]|e] w1]; try done.
    destruct (requests_tools r) eqn:Hreq; [|done].
    intros [= <- _]. exists r. split; [|done].
    simpl. unfold add_messages. apply last_snoc.
  - rewrite step_call_api.
    destruct (call_task_manager_api _ _) as [[out|e] w1]; [|done].
    simpl. by case_bool_decide.
  - rewrite step_limit_llm_request.
    by destruct (llm_generate _ _ _) as [[[r|]|e] w1].
  - by rewrite step_END.
Qed.

(** The errors of a step, and of a run. *)
Lemma step_Raise n state w e w' :
  step get_graph n state w = (Raise e, w') →
  (n = call_api → ∃ m, last (messages state) = Some m ∧ requests_tools m = true) →
  e = llm_failure ∨
  (∃ name, (name ∉ catalog_names) ∧
           e = Exn NotImplementedError
                 ("Function " +:+ name +:+ " is not implemented")) ∨
  e = missing_tool_call_id ∨
  (∃ w0 msgs, model_ainvoke w0 true msgs = Raise e ∧
              exn_cls e ≠ ChatGoogleGenerativeAIError ∧
              exn_cls e ≠ LangChainException).
Proof.
  destruct n.
  - by rewrite step_START.
  - rewrite step_llm. intros Hs _.
    destruct (llm_generate _ _ _) as [[[r|]|e0] w1] eqn:Hgen; try done.
    + injection Hs as <- _. by left.
    + injection Hs as <- _. do 3 right.
      exists (w ++ [EvNode llm]), (messages state).
      apply (llm_generate_Raise _ with_tools_default). by rewrite Hgen.
  - rewrite step_call_api. intros Hs Hinv.
    destruct (Hinv eq_refl) as (m & Hlast & Hreq).
    unfold requests_tools in Hreq.
    destruct (tool_calls m) as [tcs|] eqn:Htcs; [|done].
    revert Hs. unfold call_task_manager_api, last_item, get_tool_calls.
    rewrite Hlast. unfold_monad. rewrite Htcs.
    destruct (for_each _ tcs _) as [[called|e0] w1] eqn:Hloop.
    + simpl. by case_bool_decide.
    + intros [= <- _].
      destruct (for_each_call_tool_events _ _ _ _ _ Hloop)
        as (ran & d & _ & _ & _ & _ & _ & _
            & [(tc & rest & _ & _ & Hnot & ->)
              |(pre & tc & rest & _ & _ & _ & _ & ->)]).
      * right. left. by exists (tc_name tc).
      * right. right. by left.
  - rewrite step_limit_llm_request. intros Hs _.
    destruct (llm_generate _ _ _) as [[[r|]|e0] w1] eqn:Hgen; try done.
    + injection Hs as <- _. by left.
    + injection Hs as <- _. do 3 right.
      exists (w ++ [EvNode limit_llm_request]), (messages state ++ [limit_prompt]).
      apply (llm_generate_Raise _ with_tools_default). by rewrite Hgen.
  - by rewrite step_END.
Qed.

Lemma run_Raise fuel n state w r w' :
  run get_graph fuel n state w = Some (r, w') →
  (n = call_api → ∃ m, last (messages state) = Some m ∧ requests_tools m = true) →
  ∀ e, r = Raise e →
  e = llm_failure ∨
  (∃ name, (name ∉ catalog_names) ∧
           e = Exn NotImplementedError
                 ("Function " +:+ name +:+ " is not implemented")) ∨
  e = missing_tool_call_id ∨
  (∃ w0 msgs, model_ainvoke w0 true msgs = Raise e ∧
              exn_cls e ≠ ChatGoogleGenerativeAIError ∧
              exn_cls e ≠ LangChainException).
Proof.
  revert fuel n state w r w'.
  apply (run_ind_steps get_graph
           (λ n state w r w',
              (n = call_api →
               ∃ m, last (messages state) = Some m ∧ requests_tools m = true) →
              ∀ e, r = Raise e →
              e = llm_failure ∨
              (∃ name, (name ∉ catalog_names) ∧
                       e = Exn NotImplementedError
                             ("Function " +:+ name +:+ " is not implemented")) ∨
              e = missing_tool_call_id ∨
              (∃ w0 msgs, model_ainvoke w0 true msgs = Raise e ∧
                          exn_cls e ≠ ChatGoogleGenerativeAIError ∧
                          exn_cls e ≠ LangChainException))).
  - done.
  - intros n state w e w' _ Hs Hinv e' [= <-]. by eapply step_Raise.
  - intros n state w n' state' w1 r w' _ Hs IH _ e ->.
    apply IH; [|done]. intros ->. by eapply step_to_call_api.
Qed.

(** ** Requests against tool invocations *)

Lemma count_invocations d : count is_tool_call d = length (invocations d).
Proof.
  unfold invocations. induction d as [|ev d IH]; [done|].
  destruct ev; simpl; by rewrite IH.
Qed.

(** The tool turn, a step and a run send at most one request per tool
    invocation. *)
Lemma call_task_manager_api_requests state w :
  ∃ d, (call_task_manager_api state w).2 = w ++ d ∧
       (count is_request d ≤ count is_tool_call d)%nat.
Proof.
  unfold call_task_manager_api. unfold_monad.
  destruct (last_item (messages state)) as [m|e];
    [|exists []; by rewrite app_nil_r].
  destruct (get_tool_calls m) as [tcs|e]; [|exists []; by rewrite app_nil_r].
  destruct (for_each _ tcs w) as [r w1] eqn:Hloop.
  destruct (for_each_call_tool_events _ _ _ _ _ Hloop)
    as (ran & d & -> & Hinv & Hreq & _).
  exists d. split; [by destruct r|].
  by rewrite count_invocations, Hinv, length_fmap.
Qed.

Lemma step_requests n state w :
  ∃ d, (step get_graph n state w).2 = w ++ d ∧
       (count is_request d ≤ count is_tool_call d)%nat.
Proof.
  destruct n.
  - exists []. by rewrite step_START, app_nil_r.
  - eexists. rewrite step_model_log by auto. split; [done|]. simpl. lia.
  - rewrite step_call_api.
    destruct (call_task_manager_api_requests state (w ++ [EvNode call_api]))
      as (dt & Hdt & Hle).
    exists (EvNode call_api :: dt). split; [|done].
    destruct (call_task_manager_api _ _) as [[out|e] w1]; simpl in *; subst;
      by rewrite <- app_assoc.
  - eexists. rewrite step_model_log by auto. split; [done|]. simpl. lia.
  - exists []. by rewrite app_nil_r.
Qed.

Lemma run_requests fuel n state w r w' :
  run get_graph fuel n state w = Some (r, w') →
  ∃ d, w' = w ++ d ∧ (count is_request d ≤ count is_tool_call d)%nat.
Proof.
  revert fuel n state w r w'. apply run_ind_steps.
  - intros state w. exists []. by rewrite app_nil_r.
  - intros n state w e w' _ Hs.
    destruct (step_requests n state w) as (d & Hd & Hle).
    rewrite Hs in Hd. by exists d.
  - intros n state w n' state' w1 r w' _ Hs (d' & -> & Hle').
    destruct (step_requests n state w) as (d & Hd & Hle).
    rewrite Hs in Hd. simpl in Hd. subst w1.
    exists (d ++ d'). rewrite app_assoc, !count_app. split; [done|]. lia.
Qed.

End further.

(** ** The tools of the catalog *)

(** X1.  A tool of the catalog, called with any keyword arguments, does one
    of two things.  Either it raises before anything has left (a missing or
    unexpected keyword, a field name the update tools do not know, a task
    that does not validate) and the log is as it was; or it sends exactly
    one request, with the header [Authorization: Bearer <token>] made from
    its own [token] keyword, the method its name stands for ([POST] for
    create, [PATCH] for update, [DELETE] for delete, [GET] otherwise) and a
    URL under [TASK_MANAGER_BASE_URL]. *)
Theorem tool_sends_one_authorized_request {E : Externals}
    (name : string) (t : StructuredTool) (kw : gmap string value) (w : log) :
  get_function_by_name name = Ok t →
  (∃ e, coroutine t kw w = (Raise e, w)) ∨
  ∃ req token url_path,
    (coroutine t kw w).2 = w ++ [EvRequest req] ∧
    kw !! "token" = Some token ∧
    req_headers req = {[ "Authorization" := "Bearer " +:+ py_str token ]} ∧
    req_method req = expected_method name ∧
    req_url req = TASK_MANAGER_BASE_URL +:+ url_path.
Proof.
  intros Hget%get_function_by_name_Ok.
  destruct (tool_shape name t kw w Hget)
    as [[e ->]|(req & token & -> & Htoken & Hhead & Hmeth & url_path & Hurl)].
  - left. by exists e.
  - right. exists req, token, url_path. by rewrite send_log.
Qed.

Lemma tool_sends_one_authorized_request_witness :
  ∃ req,
    (coroutine (@delete_task_tool Stub.plain)
       {[ "task_id" := VInt 3; "token" := VStr "tok" ]} []).2 = [EvRequest req] ∧
    req_method req = DELETE ∧
    req_headers req = {[ "Authorization" := "Bearer tok" ]}.
Proof.
  destruct (@tool_sends_one_authorized_request Stub.plain "delete_task"
              (@delete_task_tool Stub.plain)
              {[ "task_id" := VInt 3; "token" := VStr "tok" ]} [] eq_refl)
    as [(e & Hraise)|(req & token & url_path & Hlog & Htoken & Hhead & Hmeth & _)].
  - by vm_compute in Hraise.
  - exists req. split_and!; [exact Hlog|exact Hmeth|].
    vm_compute in Htoken. injection Htoken as <-. exact Hhead.
Defined.

(** X2.  What a tool of the catalog returns once its request has left is
    decided by the answer alone, in the same way for all ten tools.  A
    response without error status gives its JSON body.  A response with an
    error status (an [HTTPError] from [raise_for_status]) does not raise:
    the tool returns [str] of the error as its result, provided the body
    parses as JSON, which the handler's log line asks for.  When the client
    itself raises an [HTTPError] (no connection, a timeout), the handler's
    [response.json()] finds [response] unbound and the tool raises
    [UnboundLocalError] in place of the error of the transport.  Any other
    exception passes through. *)
Theorem tool_outcome_follows_response {E : Externals}
    (name : string) (t : StructuredTool) (kw : gmap string value) (w : log)
    (req : Request) :
  get_function_by_name name = Ok t →
  (coroutine t kw w).2 = w ++ [EvRequest req] →
  (coroutine t kw w).1 =
    match remote w req with
    | Answered response =>
        match raise_for_status response with
        | None => json response
        | Some e =>
            if isinstance e HTTPError
            then match json response with
                 | Ok _ => Ok (VStr (str_exn e))
                 | Raise e' => Raise e'
                 end
            else Raise e
        end
    | Failed e =>
        if isinstance e HTTPError
        then Raise (Exn UnboundLocalError "response")
        else Raise e
    end.
Proof.
  intros Hget%get_function_by_name_Ok Hlog.
  destruct (tool_shape name t kw w Hget)
    as [[e Hco]|(req' & token & Hco & _)]; rewrite Hco in Hlog |- *.
  - simpl in Hlog. rewrite <- (app_nil_r w) in Hlog at 1.
    by apply app_inv_head in Hlog.
  - rewrite send_log in Hlog. apply app_inv_head in Hlog. injection Hlog as ->.
    unfold send. unfold_monad.
    destruct (remote w req) as [response|e].
    + destruct (raise_for_status response) as [e|]; [|done].
      destruct (isinstance e HTTPError); [|done]. by destruct (json response).
    + by destruct (isinstance e HTTPError).
Qed.

Lemma tool_outcome_follows_response_witness :
  (coroutine (@read_task_tool Faulty.offline)
     {[ "task_id" := VInt 3; "token" := VStr "tok" ]} []).1
  = Raise (Exn UnboundLocalError "response").
Proof.
  assert ((coroutine (@read_task_tool Faulty.offline)
             {[ "task_id" := VInt 3; "token" := VStr "tok" ]} []).2
          = [] ++ [EvRequest
                     (mkRequest GET "http://tm/tasks/<value>" None None
                        {[ "Authorization" := "Bearer tok" ]})]) as Hlog
    by (vm_compute; reflexivity).
  rewrite (@tool_outcome_follows_response Faulty.offline "read_task"
             (@read_task_tool Faulty.offline) _ _ _ eq_refl Hlog).
  reflexivity.
Defined.

(** X3.  The tools the model is told about ([tools], bound to the model in
    [GeminiRepository.__init__]) are exactly the tools that
    [get_function_by_name] can return; each is found under its own name,
    these names are the ten catalog names, and no two tools share one.  So
    a tool call that names a tool the model was offered is never refused
    as not implemented. *)
Theorem advertised_tools_are_the_resolvable_ones {E : Externals} :
  (∀ t, t ∈ tools ↔ ∃ name, get_function_by_name name = Ok t) ∧
  (∀ name t, get_function_by_name name = Ok t →
             tool_name t = name ∧ name ∈ catalog_names) ∧
  (∀ t, t ∈ tools → get_function_by_name (tool_name t) = Ok t) ∧
  tool_name <$> tools = catalog_names ∧
  NoDup catalog_names.
Proof.
  assert (∀ t, t ∈ tools → get_function_by_name (tool_name t) = Ok t) as Hown.
  { unfold tools. intros t Hin.
    repeat (apply elem_of_cons in Hin as [->|Hin]; [reflexivity|]).
    by apply elem_of_nil in Hin. }
  split_and!.
  - intros t. split.
    + intros Hin. exists (tool_name t). by apply Hown.
    + intros [name Hget%get_function_by_name_Ok].
      rewrite tools_are_funcs. apply list_elem_of_fmap. by exists (name, t).
  - intros name t Hget%get_function_by_name_Ok. split.
    + by apply funcs_tool_name.
    + rewrite <- funcs_names. apply list_elem_of_fmap. by exists (name, t).
  - exact Hown.
  - reflexivity.
  - apply (bool_decide_unpack _). vm_compute. exact I.
Qed.

(** X4.  [task_list], called through its tool with [offset], [limit] and
    [token] bound, sends one [GET] to [tasks/] whose query always has the
    four keys [offset], [limit], [deadline] and [completed].  [deadline] is
    [None] when it was not given.  [completed] is the value given when that
    value is truthy and [False] in every other case: when it was left out,
    when it is [None], when it is [False].  The tool can ask for the
    completed tasks or for the open ones, never for both. *)
Theorem task_list_asks_for_open_tasks_by_default {E : Externals}
    (kw : gmap string value) (w : log) (offset limit token : value) :
  kw !! "offset" = Some offset →
  kw !! "limit" = Some limit →
  kw !! "token" = Some token →
  dom kw ⊆ list_to_set ["offset"; "limit"; "token"; "deadline"; "completed"] →
  ∃ params completed,
    coroutine task_list_tool kw w =
      send (mkRequest GET (TASK_MANAGER_BASE_URL +:+ "tasks/") None
              (Some params) (auth_headers token)) w ∧
    dom params = list_to_set task_list_params ∧
    params !! "offset" = Some offset ∧
    params !! "limit" = Some limit ∧
    params !! "deadline" = Some (default VNone (kw !! "deadline")) ∧
    params !! "completed" = Some completed ∧
    (kw !! "completed" = Some completed ∧ truthy completed = true ∨
     completed = VBool false ∧
     ∀ v, kw !! "completed" = Some v → truthy v = false).
Proof.
  intros Hoff Hlim Htok Hdom.
  cbn [coroutine task_list_tool tool]. unfold check_keywords, required, optional.
  rewrite bool_decide_eq_true_2 by done. unfold_monad.
  rewrite Hoff, Hlim, Htok. unfold task_list.
  eexists _, _. split; [reflexivity|]. split_and!.
  - unfold task_list_params. rewrite !dom_insert_L, dom_singleton_L. simpl.
    set_solver.
  - by simplify_map_eq.
  - by simplify_map_eq.
  - by simplify_map_eq.
  - by simplify_map_eq.
  - destruct (kw !! "completed") as [c|]; simpl.
    + destruct (truthy c) eqn:Hc; [by left|right]. split; [done|].
      by intros v [= <-].
    + right. split; [done|]. by intros v.
Qed.

Lemma task_list_asks_for_open_tasks_by_default_witness :
  ∃ params,
    coroutine (@task_list_tool Stub.plain)
      {[ "offset" := VInt 0; "limit" := VInt 10; "token" := VStr "tok";
         "completed" := VNone ]} [] =
      @send Stub.plain
        (mkRequest GET "http://tm/tasks/" None (Some params)
           (@auth_headers Stub.plain (VStr "tok"))) [] ∧
    params !! "completed" = Some (VBool false).
Proof.
  destruct (@task_list_asks_for_open_tasks_by_default Stub.plain
              {[ "offset" := VInt 0; "limit" := VInt 10; "token" := VStr "tok";
                 "completed" := VNone ]} [] (VInt 0) (VInt 10) (VStr "tok"))
    as (params & completed & Hco & _ & _ & _ & _ & Hcompleted & Hcases).
  - vm_compute. reflexivity.
  - vm_compute. reflexivity.
  - vm_compute. reflexivity.
  - apply (bool_decide_unpack _). vm_compute. exact I.
  - exists params. split; [exact Hco|].
    destruct Hcases as [[Hkw Htruthy]|[-> _]]; [|exact Hcompleted].
    vm_compute in Hkw. injection Hkw as <-. done.
Defined.

(** ** The tool turn *)

(** X5.  When [call_task_manager_api] returns, the last message carried
    tool calls, all with catalog names, and the node has invoked the tools
    once each, in the order of the calls, each under the name of its call
    and with the arguments of the call in which ["token"] is the token of
    the state.  It has sent at most one request per call, has invoked no
    model and has run no other node, and it hands back one message per
    call. *)
Theorem tool_calls_run_once_in_order {E : Externals}
    (state : ChatBotState) (w : log) (out : ChatBotState * Update) (w' : log) :
  call_task_manager_api state w = (Ok out, w') →
  ∃ m tcs d,
    last (messages state) = Some m ∧ tool_calls m = Some tcs ∧
    w' = w ++ d ∧
    invocations d = invocation (token state) <$> tcs ∧
    (count is_request d ≤ length tcs)%nat ∧
    model_calls d = 0%nat ∧ trace d = [] ∧
    Forall (λ tc, tc_name tc ∈ catalog_names) tcs ∧
    length (upd_messages out.2) = length tcs.
Proof.
  intros Hcall.
  destruct (call_task_manager_api_Ok _ _ _ _ Hcall)
    as (m & tcs & called & Hlast & Htcs & Hloop & ->).
  destruct (for_each_call_tool_events _ _ _ _ _ Hloop)
    as (ran & d & -> & Hinv & Hreq & Hmod & Htr & Hknown & ->).
  exists m, tcs, d. split_and!; try done.
  simpl. rewrite length_fmap. symmetry.
  eapply Forall2_length, for_each_call_tool_Ok, Hloop.
Qed.

Lemma tool_calls_run_once_in_order_witness :
  ∃ out w' d,
    @call_task_manager_api Stub.plain
      (Stub.after_turn [Stub.good_read; Stub.bad_update]) [] = (Ok out, w') ∧
    w' = [] ++ d ∧
    invocations d =
      [("read_task", <["token" := VStr "tok"]> (tc_args Stub.good_read));
       ("update_task", <["token" := VStr "tok"]> (tc_args Stub.bad_update))] ∧
    (count is_request d ≤ 2)%nat.
Proof.
  assert (∃ out w',
            @call_task_manager_api Stub.plain
              (Stub.after_turn [Stub.good_read; Stub.bad_update]) []
            = (Ok out, w')) as (out & w' & Hcall)
    by (eexists _, _; vm_compute; reflexivity).
  destruct (@tool_calls_run_once_in_order Stub.plain _ _ _ _ Hcall)
    as (m & tcs & d & Hlast & Htcs & Hw & Hinv & Hreq & _).
  injection Hlast as <-. injection Htcs as <-.
  exists out, w', d. split_and!; [exact Hcall|exact Hw|exact Hinv|exact Hreq].
Defined.

(** X6.  [call_task_manager_api] raises in four cases only: there is no
    message at all ([IndexError]); the last message is not an assistant
    message and has no [tool_calls] ([AttributeError]); one of the tool
    calls names a tool outside the catalog ([NotImplementedError]); or one
    of them, with a catalog name, lacks its identifier, so that the
    [ToolMessage] for it cannot be made.  In the last two cases the error is
    that of the first such call, and the calls before it, all with catalog
    names and identifiers, have already been executed: their invocations
    are in the log, with whatever they changed in the task manager, while
    no tool message for them reaches the state.  The tool of a call without
    identifier has been invoked as well; the tool of an unknown name has
    not. *)
Theorem tool_turn_fails_only_on_malformed_call {E : Externals}
    (state : ChatBotState) (w : log) (e : exn) (w' : log) :
  call_task_manager_api state w = (Raise e, w') →
  (messages state = [] ∧ exn_cls e = IndexError ∧ w' = w) ∨
  (∃ m, last (messages state) = Some m ∧ tool_calls m = None ∧
        exn_cls e = AttributeError ∧ w' = w) ∨
  (∃ m ran tc rest d,
     last (messages state) = Some m ∧
     tool_calls m = Some (ran ++ tc :: rest) ∧
     Forall (λ tc, tc_name tc ∈ catalog_names) ran ∧
     Forall (λ tc, is_Some (tc_id tc)) ran ∧
     w' = w ++ d ∧
     ((tc_name tc ∉ catalog_names) ∧
      e = Exn NotImplementedError
            ("Function " +:+ tc_name tc +:+ " is not implemented") ∧
      invocations d = invocation (token state) <$> ran
      ∨
      tc_name tc ∈ catalog_names ∧ tc_id tc = None ∧
      e = missing_tool_call_id ∧
      invocations d = invocation (token state) <$> (ran ++ [tc]))).
Proof.
  unfold call_task_manager_api, last_item, get_tool_calls. unfold_monad.
  destruct (last (messages state)) as [m|] eqn:Hlast.
  - destruct (tool_calls m) as [tcs|] eqn:Htcs.
    + destruct (for_each _ tcs w) as [[called|e'] w1] eqn:Hloop; [done|].
      intros [= <- <-]. right. right.
      destruct (for_each_call_tool_events _ _ _ _ _ Hloop)
        as (ran & d & -> & Hinv & _ & _ & _ & Hknown
            & [(tc & rest & -> & Hids & Hnot & ->)
              |(pre & tc & rest & -> & -> & Hids & Hid & ->)]).
      * exists m, ran, tc, rest, d. split_and!; try done. by left.
      * apply Forall_app in Hknown as [Hpre Htc].
        apply Forall_cons in Htc as [Htc _].
        rewrite <- app_assoc in Htcs.
        exists m, pre, tc, rest, d. split_and!; try done. by right.
    + intros [= <- <-]. right. left. by exists m.
  - intros [= <- <-]. left. split_and!; try done.
    by apply last_None.
Qed.

Lemma tool_turn_fails_only_on_malformed_call_witness :
  ∃ w' d,
    @call_task_manager_api Stub.plain
      (Stub.after_turn [Stub.good_read; Faulty.anonymous Stub.bad_update;
                        Stub.good_read]) []
    = (Raise missing_tool_call_id, w') ∧
    w' = [] ++ d ∧
    invocations d =
      invocation "tok" <$> [Stub.good_read; Faulty.anonymous Stub.bad_update].
Proof.
  assert (∃ w',
            @call_task_manager_api Stub.plain
              (Stub.after_turn
                 [Stub.good_read; Faulty.anonymous Stub.bad_update;
                  Stub.good_read]) []
            = (Raise missing_tool_call_id, w')) as (w' & Hcall)
    by (eexists; vm_compute; reflexivity).
  destruct (@tool_turn_fails_only_on_malformed_call Stub.plain _ _ _ _ Hcall)
    as [(Hnil & _)|[(m & Hlast & Hnone & _)|
         (m & ran & tc & rest & d & Hlast & Htcs & _ & Hids & Hw
          & [(_ & He & _)|(_ & Hid & _ & Hinv)])]].
  - by vm_compute in Hnil.
  - injection Hlast as <-. by vm_compute in Hnone.
  - by vm_compute in He.
  - injection Hlast as <-. cbn [tool_calls] in Htcs. injection Htcs as Htcs.
    exists w', d. split_and!; [exact Hcall|exact Hw|].
    rewrite Hinv. f_equal.
    destruct ran as [|a [|b ran]].
    + injection Htcs as <- _. by vm_compute in Hid.
    + by injection Htcs as <- <- _.
    + injection Htcs as _ <- _. apply Forall_cons in Hids as [_ Hids].
      apply Forall_cons in Hids as [[? Hsome] _]. by vm_compute in Hsome.
Defined.

(** X7.  The credential reaches the model.  After a step of [call_api] on
    an assistant message with tool calls, the next step is a model
    invocation (of [llm] or of [limit_llm_request]) whose history holds
    that assistant message with the arguments of every tool call rewritten:
    each has the token of the state under ["token"].  The write
    [tool_args["token"] = state["token"]] goes into the dict the message
    holds, and the message is sent back to the provider of the model. *)
Theorem credential_reaches_the_model {E : Externals}
    (state : ChatBotState) (prefix : list Message) (c : string)
    (tcs : list ToolCall) (w : log)
    (n' : node) (state' : ChatBotState) (w' : log) :
  messages state = prefix ++ [AIMessage c tcs] →
  step get_graph call_api state w = (Ok (n', state'), w') →
  ∃ msgs,
    (step get_graph n' state' w').2 = w' ++ [EvNode n'; EvModel true msgs] ∧
    AIMessage c (with_token (token state) <$> tcs) ∈ msgs ∧
    Forall (λ tc, tc_args tc !! "token" = Some (VStr (token state)))
      (with_token (token state) <$> tcs).
Proof.
  intros Hm. rewrite step_call_api, (call_task_manager_api_eq _ _ _ _ _ Hm).
  destruct (for_each _ tcs _) as [[called|e] w1] eqn:Hloop; [|done].
  intros [= <- <- <-].
  destruct (answers_messages _ _ _ (for_each_call_tool_Ok _ _ _ _ _ Hloop))
    as [Hcalls _].
  eexists. split_and!.
  - apply step_model_log. case_bool_decide; auto.
  - rewrite <- Hcalls.
    case_bool_decide; simpl; unfold add_messages; simpl; set_solver.
  - apply Forall_fmap, Forall_forall. intros tc _. simpl.
    apply lookup_insert_eq.
Qed.

Lemma credential_reaches_the_model_witness :
  ∃ n' state' w' msgs,
    step (@get_graph Stub.plain) call_api
      (Stub.after_turn [Stub.forged_read]) [] = (Ok (n', state'), w') ∧
    (step (@get_graph Stub.plain) n' state' w').2
    = w' ++ [EvNode n'; EvModel true msgs] ∧
    AIMessage "checking"
      [mkToolCall "read_task"
         (<["token" := VStr "tok"]> (tc_args Stub.forged_read)) (Some "c2")]
    ∈ msgs.
Proof.
  assert (∃ n' state' w',
            step (@get_graph Stub.plain) call_api
              (Stub.after_turn [Stub.forged_read]) []
            = (Ok (n', state'), w')) as (n' & state' & w' & Hstep)
    by (eexists _, _, _; vm_compute; reflexivity).
  destruct (@credential_reaches_the_model Stub.plain
              (Stub.after_turn [Stub.forged_read])
              [SystemMessage "sys"; HumanMessage "hello"] "checking"
              [Stub.forged_read] [] n' state' w' eq_refl Hstep)
    as (msgs & Hlog & Hin & _).
  exists n', state', w', msgs. split_and!; [exact Hstep|exact Hlog|exact Hin].
Defined.

(** ** Whole runs *)

(** X8.  [chat] returns for every value of
    [LIMIT_GEMINI_REQUEST_PER_MESSAGE], also for zero and for negative
    ones, which count like one: the first thing it does is to run [llm] and
    to invoke the model on the system prompt and the user's message, so at
    least one model invocation takes place, and there are at most
    [max 1 LIMIT + 1] of them.  With a limit of one or less the tools are
    run for at most one turn.  (The step bound of the graph library, which
    the program does not set, is not part of the model; X13 bounds the
    number of steps.) *)
Theorem chat_returns_for_every_limit {E : Externals}
    (setup_prompt message current_user_token : string) (w : log) :
  ∃ r d rest,
    chat setup_prompt message current_user_token w = Some (r, w ++ d) ∧
    d = [EvNode llm;
         EvModel true [SystemMessage setup_prompt; HumanMessage message]] ++ rest ∧
    (1 ≤ model_calls d)%nat ∧
    Z.of_nat (model_calls d) ≤ Z.max 1 LIMIT_GEMINI_REQUEST_PER_MESSAGE + 1 ∧
    (LIMIT_GEMINI_REQUEST_PER_MESSAGE ≤ 1 → (node_runs call_api d ≤ 1)%nat).
Proof.
  set (state := mkState [SystemMessage setup_prompt; HumanMessage message]
                  LIMIT_GEMINI_REQUEST_PER_MESSAGE None current_user_token).
  destruct (graph_ainvoke_summary state w)
    as (r & d & visited & Hrun & (Hllm & Hlim & Hcalls & _) & _ & _ & _
        & Htrace & Hroute).
  destruct (graph_ainvoke_head _ _ _ _ Hrun) as (rest & Hhead).
  apply app_inv_head in Hhead.
  exists (match r with
          | Ok result =>
              match last_item (messages result) with
              | Ok m => Ok (content m)
              | Raise e => Raise e
              end
          | Raise e => Raise e
          end), d, rest.
  split_and!.
  - unfold chat. fold state. rewrite Hrun. by destruct r.
  - exact Hhead.
  - rewrite Hhead. unfold model_calls. simpl. lia.
  - unfold state in Hllm. cbn [iterations] in Hllm. lia.
  - intros Hone. unfold state in Hllm. cbn [iterations] in Hllm.
    pose proof (route_occurrences _ _ Hroute) as Hocc.
    rewrite !node_runs_trace, Htrace in *. unfold occurrences in *.
    rewrite !filter_cons in *. repeat case_decide; simpl in *; try done. lia.
Qed.

(** X9.  When [chat] returns a text, the run of the graph has returned a
    state whose history still begins with the system prompt and the user's
    message and ends with a message [r0], and the text is the content of
    [r0].  This last message is one the tool-bound model returned; it
    either asks for no tool, or it is the answer of the forced turn and
    follows the limit prompt.  The answer is never the text of a tool
    result or of the user. *)
Theorem answer_is_last_assistant_text {E : Externals}
    (setup_prompt message current_user_token text : string) (w w' : log) :
  chat setup_prompt message current_user_token w = Some (Ok text, w') →
  ∃ result rest r0,
    graph_ainvoke
      (mkState [SystemMessage setup_prompt; HumanMessage message]
         LIMIT_GEMINI_REQUEST_PER_MESSAGE None current_user_token) w
    = Some (Ok result, w') ∧
    messages result =
      [SystemMessage setup_prompt; HumanMessage message] ++ rest ++ [r0] ∧
    text = content r0 ∧
    (∃ w0 msgs, model_ainvoke w0 true msgs = Ok r0) ∧
    (requests_tools r0 = false ∨
     ∃ pre, messages result = pre ++ [limit_prompt; r0]).
Proof.
  unfold chat.
  destruct (graph_ainvoke _ w) as [[[result|e] w1]|] eqn:Hrun; try done.
  intros Hchat.
  destruct (run_final _ _ _ _ _ _ Hrun) as [_ Hfinal].
  destruct (Hfinal ltac:(done) result
              [SystemMessage setup_prompt; HumanMessage message] []
              eq_refl ltac:(done) ltac:(auto))
    as (rest & r0 & Hm & Hmodel & Hr0).
  exists result, rest, r0.
  rewrite Hm, app_assoc, last_item_snoc in Hchat. injection Hchat as <- <-.
  done.
Qed.

Lemma answer_is_last_assistant_text_witness :
  ∃ w' result rest r0,
    @graph_ainvoke
      (Stub.externals 2
         [Stub.asks "checking" [Stub.good_read]; Stub.answer "done"] Stub.tm_ok)
      (Stub.initial 2) [] = Some (Ok result, w') ∧
    messages result =
      [SystemMessage "sys"; HumanMessage "hello"] ++ rest ++ [r0] ∧
    content r0 = "done".
Proof.
  assert (∃ w',
            @chat (Stub.externals 2
                     [Stub.asks "checking" [Stub.good_read]; Stub.answer "done"]
                     Stub.tm_ok) "sys" "hello" "tok" []
            = Some (Ok "done", w')) as [w' Hchat]
    by (eexists; vm_compute; reflexivity).
  destruct (@answer_is_last_assistant_text _ _ _ _ _ _ _ Hchat)
    as (result & rest & r0 & Hrun & Hm & Htext & _).
  exists w', result, rest, r0. split_and!; [exact Hrun|exact Hm|by symmetry].
Defined.

(** X10.  The errors of [chat].  When [chat] raises, the error is one of
    four: the HTTP-500 error the service raises when [llm_generate] gave
    [None]; the [NotImplementedError] for a tool name outside the catalog;
    the error of the [ToolMessage] for a tool call without identifier; or
    an exception that the invocation of the tool-bound model raised and
    that is neither a [ChatGoogleGenerativeAIError] nor a
    [LangChainException].  Nothing else goes wrong in a run started by
    [chat]: the routing functions find their last message and their key,
    [call_api] is entered only on a message with tool calls, and the
    history [chat] takes its answer from is not empty.  (These are the
    errors of the program's code; the step bound of the graph library is
    not part of the model.) *)
Theorem chat_fails_only_on_model_or_malformed_tool_call {E : Externals}
    (setup_prompt message current_user_token : string) (w w' : log) (e : exn) :
  chat setup_prompt message current_user_token w = Some (Raise e, w') →
  e = llm_failure ∨
  (∃ name, (name ∉ catalog_names) ∧
           e = Exn NotImplementedError
                 ("Function " +:+ name +:+ " is not implemented")) ∨
  e = missing_tool_call_id ∨
  (∃ w0 msgs, model_ainvoke w0 true msgs = Raise e ∧
              exn_cls e ≠ ChatGoogleGenerativeAIError ∧
              exn_cls e ≠ LangChainException).
Proof.
  unfold chat.
  destruct (graph_ainvoke _ w) as [[[result|e0] w1]|] eqn:Hrun; try done.
  - destruct (run_final _ _ _ _ _ _ Hrun) as [_ Hfinal].
    destruct (Hfinal ltac:(done) result
                [SystemMessage setup_prompt; HumanMessage message] []
                eq_refl ltac:(done) ltac:(auto))
      as (rest & r0 & Hm & _).
    by rewrite Hm, app_assoc, last_item_snoc.
  - intros [= <- <-]. by eapply run_Raise.
Qed.

Lemma chat_fails_only_on_model_or_malformed_tool_call_witness :
  ∃ e w',
    @chat Stub.provider_timeout "sys" "hello" "tok" [] = Some (Raise e, w') ∧
    (e = llm_failure ∨
     (∃ name, (name ∉ catalog_names) ∧
              e = Exn NotImplementedError
                    ("Function " +:+ name +:+ " is not implemented")) ∨
     e = missing_tool_call_id ∨
     (∃ w0 msgs, @model_ainvoke Stub.provider_timeout w0 true msgs = Raise e ∧
                 exn_cls e ≠ ChatGoogleGenerativeAIError ∧
                 exn_cls e ≠ LangChainException)).
Proof.
  assert (∃ e w',
            @chat Stub.provider_timeout "sys" "hello" "tok" []
            = Some (Raise e, w')) as (e & w' & Hchat)
    by (eexists _, _; vm_compute; reflexivity).
  exists e, w'. split; [exact Hchat|].
  exact (@chat_fails_only_on_model_or_malformed_tool_call _ _ _ _ _ _ _ Hchat).
Defined.

(** X11.  In a whole run of the graph, from any state, every tool is
    invoked with the token of that state under ["token"], whatever the
    model put there, in every turn; and the run hands the token back
    unchanged. *)
Theorem every_tool_invocation_carries_session_token {E : Externals}
    (state : ChatBotState) (w : log) :
  ∃ r d,
    graph_ainvoke state w = Some (r, w ++ d) ∧
    Forall (with_credential (token state)) d ∧
    (∀ state', r = Ok state' → token state' = token state).
Proof.
  destruct (graph_ainvoke_summary state w)
    as (r & d & rest & Hrun & _ & Htok & _ & Hfinal & _).
  by exists r, d.
Qed.

(** X12.  No run of the graph invokes the model without tools: every model
    invocation of a run goes to [model_with_tools].  The branch
    [with_tools=False] of [llm_generate], and with it the plain model that
    [GeminiRepository] keeps, is never used by the service. *)
Theorem plain_model_is_never_invoked {E : Externals}
    (state : ChatBotState) (w : log) :
  ∃ r d,
    graph_ainvoke state w = Some (r, w ++ d) ∧
    Forall tool_bound d ∧
    ∀ msgs, EvModel false msgs ∉ d.
Proof.
  destruct (graph_ainvoke_summary state w)
    as (r & d & rest & Hrun & _ & _ & Hbound & _).
  exists r, d. split; [done|]. split; [done|].
  intros msgs Hin. by apply (proj1 (Forall_forall _ _) Hbound) in Hin.
Qed.

(** X13.  The nodes of a run form a walk through the graph that starts at
    [llm]: [call_api] comes only after [llm], after [call_api] comes [llm]
    or [limit_llm_request], and nothing comes after [limit_llm_request].
    Hence the tools never run before the model has been asked, a tool turn
    is never followed by another tool turn, there are no more tool turns
    than turns of [llm], and their number is at most the budget (at most
    one for a budget below one).  A run with budget [N] executes at most
    [2 * max 1 N + 1] nodes. *)
Theorem turns_alternate_within_budget {E : Externals}
    (state : ChatBotState) (w : log) :
  ∃ r d rest,
    graph_ainvoke state w = Some (r, w ++ d) ∧
    trace d = llm :: rest ∧ route llm rest ∧
    (node_runs call_api d ≤ node_runs llm d)%nat ∧
    Z.of_nat (node_runs call_api d) ≤ Z.max 1 (iterations state) ∧
    Z.of_nat (length (trace d)) ≤ 2 * Z.max 1 (iterations state) + 1.
Proof.
  destruct (graph_ainvoke_summary state w)
    as (r & d & rest & Hrun & (Hllm & Hlim & _) & _ & _ & _ & Htrace & Hroute).
  exists r, d, rest.
  assert (node_runs call_api d ≤ node_runs llm d)%nat as Hle.
  { pose proof (route_occurrences _ _ Hroute) as Hocc.
    rewrite !node_runs_trace, Htrace. unfold occurrences in *.
    rewrite !filter_cons. repeat case_decide; simpl in *; try done. lia. }
  assert (length (trace d) =
          (node_runs llm d + node_runs call_api d
           + node_runs limit_llm_request d)%nat) as Hlen.
  { pose proof (route_length _ _ Hroute) as Hl.
    rewrite !node_runs_trace, Htrace. unfold occurrences in *.
    rewrite !filter_cons. repeat case_decide; simpl in *; try done. lia. }
  split_and!; try done; lia.
Qed.

(** X14.  A run sends no more requests to the task manager than the model
    has asked for: the requests of a run are at most as many as its tool
    invocations. *)
Theorem requests_bounded_by_tool_invocations {E : Externals}
    (state : ChatBotState) (w : log) :
  ∃ r d,
    graph_ainvoke state w = Some (r, w ++ d) ∧
    (count is_request d ≤ count is_tool_call d)%nat.
Proof.
  destruct (graph_ainvoke_returns state w) as (r & d & Hrun & _).
  pose proof Hrun as Hrun'. unfold graph_ainvoke in Hrun'.
  destruct (run_requests _ _ _ _ _ _ Hrun') as (d1 & Hd1 & Hle).
  apply app_inv_head in Hd1 as <-.
  by exists r, d.
Qed.
